(** * exercisedb-api: the exercise loader and the basic-exercise activator

    A shallow embedding of the two administrative scripts of the repository:

    - the loader (populate script): reads [src/data/exercises.json], reshapes
      every record with [mapExerciseToDatabase], drops the rows whose
      identifier the store already holds and inserts the rest in batches;
    - the activator ([src/scripts/activate-basic-exercises.ts]): walks the
      fixed list [BASIC_EXERCISES], searches the inactive rows by name and
      activates the first hit.

    Both scripts talk to a remote table through the Supabase client.  The
    client and the library that creates it are modelled by a world: the
    table, the input file, a script of faults the store delivers call by
    call, what the library's constructor makes of a URL and a key, the trace
    of the calls issued and the console.  The scripts themselves are written in a small state and
    exception monad over that world. *)

From Stdlib Require Import String Ascii Arith Bool Lia PeanoNat List.
Import ListNotations.
Local Open Scope string_scope.
Local Open Scope list_scope.
Local Open Scope nat_scope.

Set Implicit Arguments.

(** ** JavaScript values of the list attributes *)

Module Js.

(** What a list attribute of a parsed JSON record can hold: the key may be
    missing ([undefined]), hold [null], or hold an array of strings. *)
Inductive value : Type :=
| Undefined
| Null
| Array (items : list string).

(** [undefined] and [null] are falsy; every array, also the empty one, is
    truthy. *)
Definition truthy (v : value) : bool :=
  match v with
  | Array _ => true
  | Undefined | Null => false
  end.

(** [a || b]: the left operand when it is truthy, else the right one. *)
Definition or (a b : value) : value :=
  if truthy a then a else b.

(** [!s] on an environment variable: unset or the empty string. *)
Definition falsy_string (s : option string) : bool :=
  match s with
  | None => true
  | Some EmptyString => true
  | Some (String _ _) => false
  end.

(** [xs.includes(x)] on strings. *)
Definition includes (xs : list string) (x : string) : bool :=
  existsb (String.eqb x) xs.

(** [xs.slice(from, to)] for indices within the non-negative integers. *)
Definition slice {A : Type} (xs : list A) (from to : nat) : list A :=
  firstn (to - from) (skipn from xs).

End Js.

(** ** Data model *)

(** interface ExerciseData.  The records come out of [JSON.parse] unchecked:
    the transformation guards the five list attributes with [|| []], so they
    are modelled as JavaScript values that may be missing; the identifier,
    the name and the URL are strings, as the interface declares. *)
Record ExerciseData : Type := mkExerciseData {
  exerciseId : string;
  name : string;
  gifUrl : string;
  targetMuscles : Js.value;
  bodyParts : Js.value;
  equipments : Js.value;
  secondaryMuscles : Js.value;
  instructions : Js.value
}.

(** interface DatabaseExercise.  The fields [name], [equipments] and
    [instructions] carry the prefix [db_] here, their names being taken by
    the projections of [ExerciseData]. *)
Record DatabaseExercise : Type := mkDatabaseExercise {
  exercise_id : string;
  db_name : string;
  gif_path : string;
  target_muscles : Js.value;
  body_parts : Js.value;
  db_equipments : Js.value;
  secondary_muscles : Js.value;
  db_instructions : Js.value;
  is_active : bool
}.

(** ** The loader's transformation *)

Definition mapExerciseToDatabase (exercise : ExerciseData) : DatabaseExercise :=
  let gifFileName := (exerciseId exercise ++ ".gif")%string in
  let gif_path := ("gifs/" ++ gifFileName)%string in
  {| exercise_id := exerciseId exercise;
     db_name := name exercise;
     gif_path := gif_path;
     target_muscles := Js.or (targetMuscles exercise) (Js.Array []);
     body_parts := Js.or (bodyParts exercise) (Js.Array []);
     db_equipments := Js.or (equipments exercise) (Js.Array []);
     secondary_muscles := Js.or (secondaryMuscles exercise) (Js.Array []);
     db_instructions := Js.or (instructions exercise) (Js.Array []);
     is_active := false |}.

(** ** The remote store *)

(** A row of the [exercises] table: the primary key the store assigns and
    the columns the loader writes. *)
Record Row : Type := mkRow {
  id : nat;
  columns : DatabaseExercise
}.

Definition set_active (b : bool) (r : Row) : Row :=
  let c := columns r in
  {| id := id r;
     columns :=
       {| exercise_id := exercise_id c;
          db_name := db_name c;
          gif_path := gif_path c;
          target_muscles := target_muscles c;
          body_parts := body_parts c;
          db_equipments := db_equipments c;
          secondary_muscles := secondary_muscles c;
          db_instructions := db_instructions c;
          is_active := b |} |}.

(** The filters the two scripts chain onto a query. *)
Inductive clause : Type :=
| ILike (column pattern : string)
| EqBool (column : string) (v : bool)
| EqId (column : string) (v : nat).

(** The three kinds of request the scripts send:
    [.select(columns)] with its filters and optional [.limit(n)],
    [.insert(batch).select(returning)] and [.update({is_active})] with its
    filters. *)
Inductive call : Type :=
| Select (cols : string) (filters : list clause) (limit : option nat)
| Insert (batch : list DatabaseExercise) (returning : string)
| Update (active : bool) (filters : list clause).

(** How the store answers one call.  [NoData] is an answer without error and
    with [data] null; [StoreError] is an answer whose [error] is set (a lost
    connection, a violated uniqueness constraint, ...); [Thrown] is an
    awaited call that rejects. *)
Inductive fault : Type :=
| NoFault
| NoData
| StoreError (message : string)
| Thrown (e : string).

Definition failed (f : fault) : bool :=
  match f with
  | StoreError _ | Thrown _ => true
  | NoFault | NoData => false
  end.

(** The [{ data, error }] object every awaited query resolves to. *)
Record response (A : Type) : Type := mkResponse {
  data : option A;
  error : option string
}.

(** What the hosted table does with a call it accepts.  The table is a list
    in insertion order, and a select returns its rows in that order (the
    store itself promises no order). *)
Module Sql.

Definition lower_char (c : ascii) : ascii :=
  let n := nat_of_ascii c in
  if (65 <=? n) && (n <=? 90) then ascii_of_nat (n + 32) else c.

Fixpoint lower (s : string) : string :=
  match s with
  | EmptyString => EmptyString
  | String c s' => String (lower_char c) (lower s')
  end.

(** A pattern without the wildcards [%] and [_]. *)
Fixpoint plain (p : string) : bool :=
  match p with
  | EmptyString => true
  | String c p' =>
      negb (Ascii.eqb c "%"%char) && negb (Ascii.eqb c "_"%char) && plain p'
  end.

(** [s LIKE p]: [%] stands for any run of characters, [_] for one. *)
Fixpoint like (p s : string) : bool :=
  match p with
  | EmptyString =>
      match s with EmptyString => true | String _ _ => false end
  | String c p' =>
      if Ascii.eqb c "%"%char then
        (fix rest (t : string) : bool :=
           like p' t ||
           match t with
           | EmptyString => false
           | String _ t' => rest t'
           end) s
      else
        match s with
        | EmptyString => false
        | String d s' =>
            (Ascii.eqb c "_"%char || Ascii.eqb c d) && like p' s'
        end
  end.

Definition ilike (p s : string) : bool := like (lower p) (lower s).

(** One filter against one row.  The scripts filter on [name],
    [is_active] and [id] only. *)
Definition holds (f : clause) (r : Row) : bool :=
  match f with
  | ILike _ p => ilike p (db_name (columns r))
  | EqBool _ v => Bool.eqb (is_active (columns r)) v
  | EqId _ v => Nat.eqb (id r) v
  end.

Definition selected (fs : list clause) (r : Row) : bool :=
  forallb (fun f => holds f r) fs.

Definition limited {A : Type} (limit : option nat) (xs : list A) : list A :=
  match limit with
  | Some n => firstn n xs
  | None => xs
  end.

(** Rows a select returns: the matching rows in table order, cut at the
    limit. *)
Definition select (fs : list clause) (limit : option nat)
           (table : list Row) : list Row :=
  limited limit (filter (selected fs) table).

(** Rows are appended under fresh keys. *)
Fixpoint fresh_rows (next : nat) (batch : list DatabaseExercise) : list Row :=
  match batch with
  | [] => []
  | c :: batch' => {| id := next; columns := c |} :: fresh_rows (S next) batch'
  end.

Definition next_id (table : list Row) : nat :=
  S (fold_right (fun r m => Nat.max (id r) m) 0 table).

Definition insert (batch : list DatabaseExercise) (table : list Row) : list Row :=
  table ++ fresh_rows (next_id table) batch.

Definition update (active : bool) (fs : list clause) (table : list Row) : list Row :=
  map (fun r => if selected fs r then set_active active r else r) table.

End Sql.

(** ** Console *)

Inductive stream : Type := Stdout | Stderr.

(** The lines the scripts print, one constructor per [console.log] or
    [console.error] statement, with the values it interpolates. *)
Inductive line : Type :=
(* both scripts *)
| MissingConfig
| MissingConfigHint
| Critical (e : string)
(* loader *)
| ReadCount (n : nat)
| ReadFailed (e : string)
| InsertStart (n batchSize : nat)
| BatchFailed (batchNo : nat) (message : string)
| BatchDone (batchNo n : nat)
| BatchThrew (batchNo : nat) (e : string)
| ExistingCheckFailed (e : string)
| ExistingCheckThrew (e : string)
| PopulateStart
| TestingConnection
| CannotConnect (message : string)
| ConnectionOk
| CheckingExisting
| FoundExisting (n : nat)
| Converting
| NewCount (n : nat)
| SkippedCount (n : nat)
| AllPresent
| SummaryRule
| SummaryTitle
| SummaryInserted (n : nat)
| SummaryFailed (n : nat)
| SummaryInactive
| SummaryGifPaths
| NextSteps
| NextStep (n : nat)
(* activator *)
| ActivateStart
| Searching (exerciseName : string)
| SearchFailed (exerciseName e : string)
| NoneFound (exerciseName : string)
| ActivateFailed (exerciseName e : string)
| Activated (exerciseName exerciseId : string)
| Finished (activeCount : nat)
| TestNow.

(** ** World *)

Record World : Type := mkWorld {
  table : list Row;                          (* the [exercises] table *)
  exercises_json : option (list ExerciseData);
                  (* [src/data/exercises.json]; [None]: unreadable or malformed *)
  faults : list fault;       (* answers to the coming calls; then [NoFault] *)
  calls : list (call * fault);               (* calls issued, with the answer *)
  console : list (stream * line);
  slept : nat;                               (* milliseconds spent in pauses *)
  client_error : option string -> option string -> option string
                  (* what [createClient] throws for a URL and a key, if anything *)
}.

Definition next_fault (w : World) : fault := hd NoFault (faults w).

(** ** The monad of the scripts *)

(** How a piece of script ends: it returns a value, throws, ends the process
    with [process.exit], or never ends. *)
Inductive result (A : Type) : Type :=
| Ok (a : A)
| Throw (e : string)
| Exit (code : nat)
| Diverge.

Arguments Ok {A} a.
Arguments Throw {A} e.
Arguments Exit {A} code.
Arguments Diverge {A}.

Definition M (A : Type) : Type := World -> result A * World.

Definition ret {A : Type} (a : A) : M A := fun w => (Ok a, w).

Definition bind {A B : Type} (m : M A) (k : A -> M B) : M B :=
  fun w =>
    match m w with
    | (Ok a, w') => k a w'
    | (Throw e, w') => (Throw e, w')
    | (Exit c, w') => (Exit c, w')
    | (Diverge, w') => (Diverge, w')
    end.

Notation "x <- m ;; k" := (bind m (fun x => k))
  (at level 61, m at next level, right associativity).
Notation "m ;; k" := (bind m (fun _ => k))
  (at level 61, right associativity).

Definition throw {A : Type} (e : string) : M A := fun w => (Throw e, w).

(** [process.exit(code)] *)
Definition exit {A : Type} (code : nat) : M A := fun w => (Exit code, w).

Definition diverge {A : Type} : M A := fun w => (Diverge, w).

(** [try { m } catch (error) { handler error }] *)
Definition try_catch {A : Type} (m : M A) (handler : string -> M A) : M A :=
  fun w =>
    match m w with
    | (Throw e, w') => handler e w'
    | other => other
    end.

Definition add_line (s : stream) (l : line) (w : World) : World :=
  {| table := table w; exercises_json := exercises_json w;
     faults := faults w; calls := calls w;
     console := console w ++ [(s, l)]; slept := slept w;
     client_error := client_error w |}.

Definition print (s : stream) (l : line) : M unit :=
  fun w => (Ok tt, add_line s l w).

Definition log : line -> M unit := print Stdout.
Definition log_error : line -> M unit := print Stderr.

Definition add_pause (ms : nat) (w : World) : World :=
  {| table := table w; exercises_json := exercises_json w;
     faults := faults w; calls := calls w;
     console := console w; slept := slept w + ms;
     client_error := client_error w |}.

(** [await new Promise(resolve => setTimeout(resolve, ms))] *)
Definition sleep (ms : nat) : M unit :=
  fun w => (Ok tt, add_pause ms w).

(** One awaited store call: the next fault decides the answer.  Without a
    fault the store runs [exec] on the table and answers with its data; a
    failed call leaves the table as it is. *)
Definition request {A : Type} (c : call)
           (exec : list Row -> A * list Row) : M (response A) :=
  fun w =>
    let f := next_fault w in
    let answered (t : list Row) :=
      {| table := t; exercises_json := exercises_json w;
         faults := tl (faults w); calls := calls w ++ [(c, f)];
         console := console w; slept := slept w;
         client_error := client_error w |} in
    match f with
    | NoFault =>
        let (a, t) := exec (table w) in
        (Ok {| data := Some a; error := None |}, answered t)
    | NoData =>
        let (_, t) := exec (table w) in
        (Ok {| data := None; error := None |}, answered t)
    | StoreError msg =>
        (Ok {| data := None; error := Some msg |}, answered (table w))
    | Thrown e =>
        (Throw e, answered (table w))
    end.

(** [readFile] followed by [JSON.parse]. *)
Definition read_exercises_json : M (list ExerciseData) :=
  fun w =>
    match exercises_json w with
    | Some exercises => (Ok exercises, w)
    | None => (Throw "cannot read or parse exercises.json", w)
    end.

(** [createClient(supabaseUrl, supabaseServiceKey)] of the Supabase library.
    The library is not part of the repository: what it makes of a URL and a
    key is the world's to say ([client_error]).  It sends nothing to the
    store and prints nothing. *)
Definition createClient (supabaseUrl supabaseServiceKey : option string) : M unit :=
  fun w =>
    match client_error w supabaseUrl supabaseServiceKey with
    | Some e => (Throw e, w)
    | None => (Ok tt, w)
    end.

(** Environment variables both scripts read. *)
Record Env : Type := mkEnv {
  VITE_SUPABASE_URL : option string;
  SUPABASE_SERVICE_ROLE_KEY : option string
}.

(** The guard at the top of both modules: [!supabaseUrl || !supabaseServiceKey]. *)
Definition config_missing (env : Env) : bool :=
  Js.falsy_string (VITE_SUPABASE_URL env) ||
  Js.falsy_string (SUPABASE_SERVICE_ROLE_KEY env).

(** Status the process ends with: [process.exit(code)] gives [code], an
    error nobody catches gives 1 (the runtime reports it, the script prints
    nothing), falling off the end gives 0; a run that never ends has none. *)
Definition exit_status {A : Type} (r : result A) : option nat :=
  match r with
  | Ok _ => Some 0
  | Exit code => Some code
  | Throw _ => Some 1
  | Diverge => None
  end.

(** ** The loader *)

Module Loader.

Definition loadExercisesFromJSON : M (list ExerciseData) :=
  try_catch
    (exercises <- read_exercises_json ;;
     log (ReadCount (length exercises)) ;;
     ret exercises)
    (fun error => log_error (ReadFailed error) ;; throw error).

(** [supabase.from('exercises').insert(batch).select('exercise_id')] *)
Definition insert_batch (batch : list DatabaseExercise) : M (response (list string)) :=
  request (Insert batch "exercise_id")
          (fun t => (map exercise_id batch, Sql.insert batch t)).

(** The [try]/[catch] statement inside the loop: one insert call for
    [batch], and the two counters after it. *)
Definition attempt_batch (batchNo : nat) (batch : list DatabaseExercise)
           (insertedCount errorCount : nat) : M (nat * nat) :=
  try_catch
    (r <- insert_batch batch ;;
     match error r with
     | Some message =>
         log_error (BatchFailed batchNo message) ;;
         ret (insertedCount, errorCount + length batch)
     | None =>
         log (BatchDone batchNo (length batch)) ;;
         ret (insertedCount + length batch, errorCount)
     end)
    (fun error =>
       log_error (BatchThrew batchNo error) ;;
       ret (insertedCount, errorCount + length batch)).

(** The [for (let i = 0; i < exercises.length; i += batchSize)] loop, from
    index [i] on with the two counters as they stand.  [fuel] bounds the
    number of rounds: with [batchSize = 0] the source never leaves the
    loop, and the model answers [Diverge] when the fuel is spent. *)
Fixpoint insert_loop (fuel : nat) (exercises : list DatabaseExercise)
         (batchSize i insertedCount errorCount : nat) : M (nat * nat) :=
  if i <? length exercises then
    match fuel with
    | O => diverge
    | S fuel' =>
        let batch := Js.slice exercises i (i + batchSize) in
        counts <- attempt_batch (i / batchSize + 1) batch
                                insertedCount errorCount ;;
        sleep 100 ;;
        insert_loop fuel' exercises batchSize (i + batchSize)
                    (fst counts) (snd counts)
    end
  else ret (insertedCount, errorCount).

(** Returns [(insertedCount, errorCount)].  [batchSize] defaults to 100 in
    the source, and the one caller, [main], leaves it at that.  The batch
    number in the log lines is [Math.floor(i / batchSize) + 1]. *)
Definition insertExercisesInBatches (fuel : nat)
           (exercises : list DatabaseExercise) (batchSize : nat) : M (nat * nat) :=
  log (InsertStart (length exercises) batchSize) ;;
  insert_loop fuel exercises batchSize 0 0 0.

(** [supabase.from('exercises').select('exercise_id')]: no filter and no
    limit; the answer's rows are reduced to their identifier. *)
Definition select_exercise_ids : M (response (list string)) :=
  request (Select "exercise_id" [] None)
          (fun t => (map (fun r => exercise_id (columns r)) (Sql.select [] None t), t)).

Definition checkExistingExercises : M (list string) :=
  try_catch
    (r <- select_exercise_ids ;;
     match error r with
     | Some e => log_error (ExistingCheckFailed e) ;; ret []
     | None =>
         ret (match data r with
              | Some ids => ids
              | None => []
              end)
     end)
    (fun e => log_error (ExistingCheckThrew e) ;; ret []).

(** [supabase.from('exercises').select('count').limit(1)] *)
Definition connection_test : M (response (list nat)) :=
  request (Select "count" [] (Some 1))
          (fun t => (Sql.limited (Some 1) [length t], t)).

Definition new_exercises (existingExercises : list string)
           (databaseExercises : list DatabaseExercise) : list DatabaseExercise :=
  filter (fun ex => negb (Js.includes existingExercises (exercise_id ex)))
         databaseExercises.

(** The body of [main]'s [try] block.  Each [return] of the source ends a
    branch here.  The batch loop gets one unit of fuel per new row, which
    covers its rounds at batch size 100 ([insertExercisesInBatches_run]). *)
Definition main_body : M unit :=
  log PopulateStart ;;
  log TestingConnection ;;
  probe <- connection_test ;;
  match error probe with
  | Some message => log_error (CannotConnect message)
  | None =>
      log ConnectionOk ;;
      log CheckingExisting ;;
      existingExercises <- checkExistingExercises ;;
      log (FoundExisting (length existingExercises)) ;;
      jsonExercises <- loadExercisesFromJSON ;;
      log Converting ;;
      let databaseExercises := map mapExerciseToDatabase jsonExercises in
      let newExercises := new_exercises existingExercises databaseExercises in
      log (NewCount (length newExercises)) ;;
      log (SkippedCount (length databaseExercises - length newExercises)) ;;
      if length newExercises =? 0 then log AllPresent
      else
        counts <- insertExercisesInBatches (length newExercises) newExercises 100 ;;
        let insertedCount := fst counts in
        let errorCount := snd counts in
        log SummaryRule ;;
        log SummaryTitle ;;
        log (SummaryInserted insertedCount) ;;
        log (SummaryFailed errorCount) ;;
        log SummaryInactive ;;
        log SummaryGifPaths ;;
        log SummaryRule ;;
        if 0 <? insertedCount then
          log NextSteps ;;
          log (NextStep 1) ;;
          log (NextStep 2) ;;
          log (NextStep 3) ;;
          log (NextStep 4)
        else ret tt
  end.

Definition main : M unit :=
  try_catch main_body
            (fun error => log_error (Critical error) ;; exit 1).

(** The whole module, from the configuration guard to the call of [main].
    The client is created at module level, outside any [try]. *)
Definition script (env : Env) : M unit :=
  let supabaseUrl := VITE_SUPABASE_URL env in
  let supabaseServiceKey := SUPABASE_SERVICE_ROLE_KEY env in
  (if config_missing env then
     log_error MissingConfig ;;
     log_error MissingConfigHint ;;
     exit 1
   else ret tt) ;;
  createClient supabaseUrl supabaseServiceKey ;;
  main.

End Loader.

(** ** The activator *)

Module Activator.

Definition BASIC_EXERCISES : list string :=
  [ "push up"; "bench press"; "chest press"; "chest fly";
    "pull up"; "lat pulldown"; "barbell row"; "seated row";
    "squat"; "deadlift"; "lunge"; "leg press"; "calf raise";
    "shoulder press"; "lateral raise"; "rear delt fly";
    "bicep curl"; "tricep extension"; "hammer curl";
    "plank"; "crunch"; "russian twist"; "mountain climber" ].

(** The columns [id, name, exercise_id] of a row the search returns. *)
Record Hit : Type := mkHit {
  hit_id : nat;
  hit_name : string;
  hit_exercise_id : string
}.

Definition hit_of (r : Row) : Hit :=
  {| hit_id := id r;
     hit_name := db_name (columns r);
     hit_exercise_id := exercise_id (columns r) |}.

Definition search_filters (exerciseName : string) : list clause :=
  [ ILike "name" ("%" ++ exerciseName ++ "%")%string; EqBool "is_active" false ].

(** What the store holds for the search of one name. *)
Definition matches (exerciseName : string) (t : list Row) : list Row :=
  Sql.select (search_filters exerciseName) None t.

(** [.select('id, name, exercise_id').ilike('name', `%${exerciseName}%`).eq('is_active', false)] *)
Definition search (exerciseName : string) : M (response (list Hit)) :=
  request (Select "id, name, exercise_id" (search_filters exerciseName) None)
          (fun t => (map hit_of (matches exerciseName t), t)).

(** [.update({ is_active: true }).eq('id', exercise.id)] *)
Definition activate (exercise : Hit) : M (response unit) :=
  request (Update true [EqId "id" (hit_id exercise)])
          (fun t => (tt, Sql.update true [EqId "id" (hit_id exercise)] t)).

(** [.select('count').eq('is_active', true)] *)
Definition count_active : M (response (list nat)) :=
  request (Select "count" [EqBool "is_active" true] None)
          (fun t => ([length (Sql.select [EqBool "is_active" true] None t)], t)).

(** One round of the [for (const exerciseName of BASIC_EXERCISES)] loop;
    each [continue] ends the round. *)
Definition activate_one (exerciseName : string) : M unit :=
  log (Searching exerciseName) ;;
  found <- search exerciseName ;;
  match error found with
  | Some searchError => log_error (SearchFailed exerciseName searchError)
  | None =>
      match data found with
      | None | Some [] => log (NoneFound exerciseName)
      | Some (exercise :: _) =>
          updated <- activate exercise ;;
          match error updated with
          | Some updateError =>
              log_error (ActivateFailed (hit_name exercise) updateError)
          | None =>
              log (Activated (hit_name exercise) (hit_exercise_id exercise))
          end
      end
  end.

Fixpoint for_each (names : list string) (body : string -> M unit) : M unit :=
  match names with
  | [] => ret tt
  | exerciseName :: rest => body exerciseName ;; for_each rest body
  end.

(** The body of the [try] block of [activateBasicExercises]. *)
Definition activate_body : M unit :=
  log ActivateStart ;;
  for_each BASIC_EXERCISES activate_one ;;
  counted <- count_active ;;
  let activeCount :=
    match data counted with
    | Some (count :: _) => count
    | Some [] | None => 0
    end in
  log (Finished activeCount) ;;
  log TestNow.

Definition activateBasicExercises : M unit :=
  try_catch activate_body (fun error => log_error (Critical error)).

(** The whole module; the client is created at module level, outside any
    [try]. *)
Definition script (env : Env) : M unit :=
  let supabaseUrl := VITE_SUPABASE_URL env in
  let supabaseServiceKey := SUPABASE_SERVICE_ROLE_KEY env in
  (if config_missing env then
     log_error MissingConfig ;;
     exit 1
   else ret tt) ;;
  createClient supabaseUrl supabaseServiceKey ;;
  activateBasicExercises.

End Activator.

(** ** Reading a trace *)

Module Trace.

Definition is_insert (entry : call * fault) : bool :=
  match fst entry with
  | Insert _ _ => true
  | Select _ _ _ | Update _ _ => false
  end.

Definition is_update (entry : call * fault) : bool :=
  match fst entry with
  | Update _ _ => true
  | Select _ _ _ | Insert _ _ => false
  end.

Definition batch_of (entry : call * fault) : list DatabaseExercise :=
  match fst entry with
  | Insert batch _ => batch
  | Select _ _ _ | Update _ _ => []
  end.

(** The batches of the insert calls of a trace, in the order issued. *)
Definition insert_batches (tr : list (call * fault)) : list (list DatabaseExercise) :=
  map batch_of (filter is_insert tr).

(** Rows carried by the insert calls whose answer satisfies [p]. *)
Definition rows_where (p : fault -> bool) (tr : list (call * fault)) : nat :=
  list_sum (map (fun entry => length (batch_of entry))
                (filter (fun entry => is_insert entry && p (snd entry)) tr)).

Definition succeeded (f : fault) : bool := negb (failed f).

(** The rows of the insert calls that went through. *)
Definition inserted_rows (tr : list (call * fault)) : list DatabaseExercise :=
  concat (map batch_of
              (filter (fun entry => is_insert entry && succeeded (snd entry)) tr)).

End Trace.

(** [ceil(n / b)] on the naturals, for [b > 0]. *)
Definition ceil_div (n b : nat) : nat := (n + b - 1) / b.

Definition stored_ids (t : list Row) : list string :=
  map (fun r => exercise_id (columns r)) t.

Definition inactive_rows (t : list Row) : list Row :=
  filter (fun r => negb (is_active (columns r))) t.

(** The five list attributes of a source record and of a row, in the order
    of the interfaces. *)
Definition source_lists (e : ExerciseData) : list Js.value :=
  [targetMuscles e; bodyParts e; equipments e; secondaryMuscles e; instructions e].

Definition row_lists (r : DatabaseExercise) : list Js.value :=
  [target_muscles r; body_parts r; db_equipments r; secondary_muscles r;
   db_instructions r].

(** What a run of the loop from index [i] leaves behind. *)
Record loop_run (exs : list DatabaseExercise) (B i : nat) (w w' : World)
       (tr : list (call * fault)) : Prop := {
  run_calls : calls w' = calls w ++ tr;
  run_inserts : forallb Trace.is_insert tr = true;
  run_rows : concat (map Trace.batch_of tr) = skipn i exs;
  run_sizes : Forall (fun entry => length (Trace.batch_of entry) <= B) tr;
  run_count : length tr = ceil_div (length exs - i) B;
  run_answers :
    forall j, j < length tr ->
              nth j (map snd tr) NoFault = nth j (faults w) NoFault;
  run_faults : faults w' = skipn (length tr) (faults w);
  run_file : exercises_json w' = exercises_json w;
  run_console : exists lines, console w' = console w ++ lines;
  run_table :
    stored_ids (table w')
    = stored_ids (table w) ++ map exercise_id (Trace.inserted_rows tr)
}.

(** The identifiers [checkExistingExercises] hands back, by the answer the
    store gives to its query on table [t]. *)
Definition known_ids (answer : fault) (t : list Row) : list string :=
  match answer with
  | NoFault => stored_ids t
  | NoData | StoreError _ | Thrown _ => []
  end.

(** What a run from [w] to [w'] has printed. *)
Definition output_since (w w' : World) : list (stream * line) :=
  skipn (length (console w)) (console w').

(** The calls a run from [w] to [w'] has issued. *)
Definition calls_since (w w' : World) : list (call * fault) :=
  skipn (length (calls w)) (calls w').

(** The loader's closing report on standard output: the summary block, or
    the notice that every exercise is already in the table. *)
Definition loader_summary (out : list (stream * line)) : Prop :=
  In (Stdout, SummaryTitle) out \/ In (Stdout, AllPresent) out.

(** The activator's closing line with the number of active rows. *)
Definition activator_summary (out : list (stream * line)) : Prop :=
  exists activeCount, In (Stdout, Finished activeCount) out.

(** ** Sample data *)

Module Sample.

Definition exercise (ident title : string) : ExerciseData :=
  {| exerciseId := ident; name := title; gifUrl := "https://cdn.example/x.gif";
     targetMuscles := Js.Array ["chest"]; bodyParts := Js.Array [];
     equipments := Js.Undefined; secondaryMuscles := Js.Null;
     instructions := Js.Array ["step1"] |}.

Definition file : list ExerciseData :=
  [ exercise "e1" "Push Up"; exercise "e2" "Barbell Squat";
    exercise "e3" "Plank"; exercise "e4" "Wide Pull Up";
    exercise "e5" "Crunch" ].

Definition rows : list DatabaseExercise := map mapExerciseToDatabase file.

Definition env : Env :=
  {| VITE_SUPABASE_URL := Some "https://project.supabase.co";
     SUPABASE_SERVICE_ROLE_KEY := Some "service-role-key" |}.

Definition no_key : Env :=
  {| VITE_SUPABASE_URL := Some "https://project.supabase.co";
     SUPABASE_SERVICE_ROLE_KEY := None |}.

(** A world at the start of a run, with a library that accepts every URL
    and key. *)
Definition world (t : list Row) (json : option (list ExerciseData))
           (fs : list fault) : World :=
  {| table := t; exercises_json := json; faults := fs;
     calls := []; console := []; slept := 0;
     client_error := fun _ _ => None |}.

(** The same behind a library that takes no URL for valid. *)
Definition world_without_client (t : list Row)
           (json : option (list ExerciseData)) (fs : list fault) : World :=
  {| table := t; exercises_json := json; faults := fs;
     calls := []; console := []; slept := 0;
     client_error := fun _ _ => Some "Invalid URL" |}.

(** The table after a first run of the loader on [file] without faults. *)
Definition populated : list Row := Sql.insert rows [].

(** A store that rejects the first call and throws on the third. *)
Definition flaky : list fault :=
  [StoreError "duplicate key"; NoFault; Thrown "fetch failed"].

(** A table that holds the first two records of [file]. *)
Definition half : list Row := Sql.insert (firstn 2 rows) [].

(** An empty table behind a store that refuses the connectivity probe. *)
Definition unreachable : World :=
  world [] (Some file) [StoreError "connection refused"].

End Sample.

(** ** The claims on exit status and idempotence, as the specification words them *)

(** A variable the specification counts as absent: unset, or set to the
    empty string. *)
Definition absent (v : option string) : Prop :=
  v = None \/ v = Some EmptyString.

(** Required configuration is absent: the base URL or the access key. *)
Definition config_absent (env : Env) : Prop :=
  absent (VITE_SUPABASE_URL env) \/ absent (SUPABASE_SERVICE_ROLE_KEY env).

(** What [createClient] throws for the configured URL and key, if anything. *)
Definition client_refusal (env : Env) (w : World) : option string :=
  client_error w (VITE_SUPABASE_URL env) (SUPABASE_SERVICE_ROLE_KEY env).

(** An error that comes up to the top level of a script whose top-level
    [try] block is [body]: the client constructor throws at module level, or
    [body] throws. *)
Definition top_level_error (env : Env) (body : M unit) (w : World) : Prop :=
  (exists e, client_refusal env w = Some e) \/
  (exists e w1, body w = (Throw e, w1)).

(** "Exits with a non-zero status when required configuration is absent or
    when an unhandled top-level error occurs; otherwise exits zero after
    printing a human-readable summary to standard output", for a script
    whose top-level [try] block is [body] and whose summary is [summary]. *)
Definition exits_as_specified (script : Env -> M unit) (body : M unit)
           (summary : list (stream * line) -> Prop) : Prop :=
  forall (env : Env) (w : World),
    let r := fst (script env w) in
    let w' := snd (script env w) in
    (config_absent env ->
     exists code, exit_status r = Some code /\ code <> 0) /\
    (~ config_absent env ->
     top_level_error env body w ->
     exists code, exit_status r = Some code /\ code <> 0) /\
    (~ config_absent env ->
     ~ top_level_error env body w ->
     exit_status r = Some 0 /\ summary (output_since w w')).

(** Every record of the input file has its identifier in the table. *)
Definition all_stored (w : World) : Prop :=
  forall exs, exercises_json w = Some exs ->
              forall ex, In ex exs -> In (exerciseId ex) (stored_ids (table w)).

(** "Running the loader with every source identifier already in the store
    performs zero insert calls." *)
Definition reruns_insert_nothing : Prop :=
  forall (env : Env) (w : World),
    all_stored w ->
    Trace.insert_batches (calls_since w (snd (Loader.script env w))) = [].

(** ** Invariants of a run *)

(** [m] relates the world it starts in to the world it leaves by [R],
    however it ends. *)
Definition keeps (R : World -> World -> Prop) {A : Type} (m : M A) : Prop :=
  forall w r w', m w = (r, w') -> R w w'.

(** [t'] is [t] with rows added at the end, each with columns satisfying
    [P]. *)
Definition appended (P : DatabaseExercise -> Prop) (t t' : list Row) : Prop :=
  exists added,
    t' = t ++ added /\ Forall (fun r => P (columns r)) added.

(** A row as the loader writes it: inactive, with the image path of its
    identifier. *)
Definition freshly_loaded (c : DatabaseExercise) : Prop :=
  is_active c = false /\
  gif_path c = ("gifs/" ++ exercise_id c ++ ".gif")%string.

(** The calls the loader sends: the probe, the identifier query, inserts. *)
Definition loader_call (entry : call * fault) : Prop :=
  fst entry = Select "count" [] (Some 1) \/
  fst entry = Select "exercise_id" [] None \/
  exists batch, fst entry = Insert batch "exercise_id" /\ batch <> [].

(** What a run of the loader may do to the world: add freshly loaded rows
    to the table, send loader calls, print. *)
Definition loader_step (w w' : World) : Prop :=
  appended freshly_loaded (table w) (table w') /\
  (exists tr, calls w' = calls w ++ tr /\ Forall loader_call tr) /\
  (exists lines, console w' = console w ++ lines).

(** [t'] is [t] with some rows switched to active and nothing else
    changed. *)
Definition activated_only (t t' : list Row) : Prop :=
  Forall2 (fun r r' => r' = r \/ r' = set_active true r) t t'.

(** The calls the activator sends: selects, and updates that set
    [is_active] to true on the rows of one [id]. *)
Definition activator_call (entry : call * fault) : Prop :=
  (exists cols fs limit, fst entry = Select cols fs limit) \/
  (exists k, fst entry = Update true [EqId "id" k]).

(** An answer recorded in the trace is one the store had in stock for the
    run, or the absence of a fault. *)
Definition answered_from (fs : list fault) (entry : call * fault) : Prop :=
  snd entry = NoFault \/ In (snd entry) fs.

Definition activator_step (w w' : World) : Prop :=
  activated_only (table w) (table w') /\
  (exists tr,
      calls w' = calls w ++ tr /\ Forall activator_call tr /\
      Forall (answered_from (faults w)) tr) /\
  (exists lines, console w' = console w ++ lines) /\
  incl (faults w') (faults w).

(** The line the batch loop prints for one insert call, by its answer. *)
Definition batch_line (batchNo : nat) (entry : call * fault) : stream * line :=
  match snd entry with
  | StoreError message => (Stderr, BatchFailed batchNo message)
  | Thrown e => (Stderr, BatchThrew batchNo e)
  | NoFault | NoData =>
      (Stdout, BatchDone batchNo (length (Trace.batch_of entry)))
  end.

(** The lines for a run of insert calls, numbered from [first] on. *)
Fixpoint batch_lines (first : nat) (tr : list (call * fault)) : list (stream * line) :=
  match tr with
  | [] => []
  | entry :: tr' => batch_line first entry :: batch_lines (S first) tr'
  end.

(** ** Reading the activator's trace *)

(** The search the activator sends for one name, and its closing count. *)
Definition search_call (exerciseName : string) : call :=
  Select "id, name, exercise_id" (Activator.search_filters exerciseName) None.

Definition count_call : call :=
  Select "count" [EqBool "is_active" true] None.

Definition is_search (entry : call * fault) : bool :=
  match fst entry with
  | Select _ (ILike _ _ :: _) _ => true
  | Select _ _ _ | Insert _ _ | Update _ _ => false
  end.

Definition active_rows (t : list Row) : list Row :=
  filter (fun r => is_active (columns r)) t.

(** The number on the activator's closing line, by the answer to the count
    query on table [t]: [activeCount?.[0]?.count || 0]. *)
Definition reported_count (answer : fault) (t : list Row) : nat :=
  match answer with
  | NoFault => length (active_rows t)
  | NoData | StoreError _ | Thrown _ => 0
  end.

(** * Properties *)

(** ** Running a sequence *)

Lemma print_then :
  forall (A : Type) (s : stream) (l : line) (k : M A) (w : World),
    (print s l ;; k) w = k (add_line s l w).
Proof. reflexivity. Qed.

Lemma bind_ok :
  forall (A B : Type) (m : M A) (k : A -> M B) (w w' : World) (a : A),
    m w = (Ok a, w') -> bind m k w = k a w'.
Proof.
  intros A B m k w w' a H. unfold bind. now rewrite H.
Qed.

Lemma bind_throw :
  forall (A B : Type) (m : M A) (k : A -> M B) (w w' : World) (e : string),
    m w = (Throw e, w') -> bind m k w = (Throw e, w').
Proof.
  intros A B m k w w' e H. unfold bind. now rewrite H.
Qed.

(** ** The transformation *)

(** C7.  Every row the transformation produces is inactive, whatever the
    source record holds, keeps the record's identifier, and its image path
    is [gifs/<identifier>.gif]. *)
Theorem mapExerciseToDatabase_inactive_gif_path :
  forall exercise : ExerciseData,
    is_active (mapExerciseToDatabase exercise) = false /\
    exercise_id (mapExerciseToDatabase exercise) = exerciseId exercise /\
    gif_path (mapExerciseToDatabase exercise)
    = ("gifs/" ++ exerciseId exercise ++ ".gif")%string.
Proof.
  intros exercise. unfold mapExerciseToDatabase. cbn. auto.
Qed.

Lemma or_empty_missing :
  forall v : Js.value,
    v = Js.Undefined \/ v = Js.Null -> Js.or v (Js.Array []) = Js.Array [].
Proof.
  intros v [-> | ->]; reflexivity.
Qed.

Lemma or_empty_present :
  forall v : Js.value, exists items, Js.or v (Js.Array []) = Js.Array items.
Proof.
  intros [| | items]; cbn; eauto.
Qed.

(** C8.  For each of the five list attributes (position [k] in the
    interfaces): a row always carries an array there, and when the source
    record has the attribute missing ([undefined]) or [null] the array is the
    empty one. *)
Theorem mapExerciseToDatabase_defaults_lists :
  forall (exercise : ExerciseData) (k : nat) (v : Js.value),
    nth_error (source_lists exercise) k = Some v ->
    (exists items,
        nth_error (row_lists (mapExerciseToDatabase exercise)) k
        = Some (Js.Array items)) /\
    (v = Js.Undefined \/ v = Js.Null ->
     nth_error (row_lists (mapExerciseToDatabase exercise)) k
     = Some (Js.Array [])).
Proof.
  intros exercise k v Hk.
  unfold source_lists in Hk. unfold row_lists, mapExerciseToDatabase. cbn.
  do 5 (destruct k as [| k]; cbn in Hk |- *;
        [ injection Hk as Hk; subst v; split;
          [ match goal with
            | |- context [Js.or ?x _] =>
                destruct (or_empty_present x) as [items ->]; eauto
            end
          | intros Hv; rewrite (or_empty_missing Hv); reflexivity ]
        | ]).
  destruct k; discriminate.
Qed.

Lemma mapExerciseToDatabase_defaults_lists_witness :
  (exists items,
      nth_error
        (row_lists
           (mapExerciseToDatabase
              (mkExerciseData "e1" "Push Up" "u" (Js.Array ["chest"])
                              Js.Undefined Js.Null (Js.Array []) Js.Undefined))) 1
      = Some (Js.Array items)) /\
  (Js.Undefined = Js.Undefined \/ Js.Undefined = Js.Null ->
   nth_error
     (row_lists
        (mapExerciseToDatabase
           (mkExerciseData "e1" "Push Up" "u" (Js.Array ["chest"])
                           Js.Undefined Js.Null (Js.Array []) Js.Undefined))) 1
   = Some (Js.Array [])).
Proof.
  apply (@mapExerciseToDatabase_defaults_lists
           (mkExerciseData "e1" "Push Up" "u" (Js.Array ["chest"])
                           Js.Undefined Js.Null (Js.Array []) Js.Undefined)
           1 Js.Undefined).
  reflexivity.
Defined.

(** ** The batch loop *)

Section BatchLoop.

Import Trace.

Lemma ceil_div_zero : forall b, 0 < b -> ceil_div 0 b = 0.
Proof.
  intros b Hb. unfold ceil_div. apply Nat.div_small. lia.
Qed.

Lemma ceil_div_step :
  forall n b, 0 < b -> 0 < n -> ceil_div n b = S (ceil_div (n - b) b).
Proof.
  intros n b Hb Hn. unfold ceil_div.
  destruct (Nat.le_gt_cases b n) as [Hle | Hlt].
  - replace (n + b - 1) with ((n - b + b - 1) + 1 * b) by lia.
    rewrite Nat.div_add by lia. lia.
  - replace (n - b) with 0 by lia.
    replace (n + b - 1) with ((n - 1) + 1 * b) by lia.
    rewrite Nat.div_add by lia.
    rewrite (Nat.div_small (n - 1) b) by lia.
    rewrite (Nat.div_small (0 + b - 1) b) by lia. reflexivity.
Qed.

Lemma slice_then_rest :
  forall (A : Type) (xs : list A) (i b : nat),
    Js.slice xs i (i + b) ++ skipn (i + b) xs = skipn i xs.
Proof.
  intros A xs i b. unfold Js.slice.
  replace (i + b - i) with b by lia.
  replace (i + b) with (b + i) by lia.
  rewrite <- skipn_skipn. apply firstn_skipn.
Qed.

Lemma slice_length :
  forall (A : Type) (xs : list A) (i b : nat),
    length (Js.slice xs i (i + b)) <= b.
Proof.
  intros A xs i b. unfold Js.slice.
  replace (i + b - i) with b by lia. apply firstn_le_length.
Qed.

Lemma nth_tl :
  forall (A : Type) (xs : list A) (d : A) (j : nat),
    nth j (tl xs) d = nth (S j) xs d.
Proof.
  intros A [| x xs] d j; [destruct j |]; reflexivity.
Qed.

Lemma rows_where_cons :
  forall p entry tr,
    rows_where p (entry :: tr)
    = (if is_insert entry && p (snd entry) then length (batch_of entry) else 0)
      + rows_where p tr.
Proof.
  intros p entry tr. unfold rows_where. cbn [filter].
  destruct (is_insert entry && p (snd entry)); reflexivity.
Qed.

Lemma inserted_rows_cons :
  forall entry tr,
    inserted_rows (entry :: tr)
    = (if is_insert entry && succeeded (snd entry) then batch_of entry else [])
      ++ inserted_rows tr.
Proof.
  intros entry tr. unfold inserted_rows. cbn [filter].
  destruct (is_insert entry && succeeded (snd entry)); reflexivity.
Qed.

Lemma stored_ids_fresh_rows :
  forall batch next,
    stored_ids (Sql.fresh_rows next batch) = map exercise_id batch.
Proof.
  induction batch as [| c batch IH]; intros next; cbn; [reflexivity |].
  f_equal. apply IH.
Qed.

Lemma stored_ids_insert :
  forall batch t,
    stored_ids (Sql.insert batch t) = stored_ids t ++ map exercise_id batch.
Proof.
  intros batch t. unfold Sql.insert, stored_ids at 1. rewrite map_app.
  f_equal. apply stored_ids_fresh_rows.
Qed.

(** One round: the call is issued whatever the store answers, nothing is
    thrown further, and the batch is counted on the side its answer puts
    it. *)
Lemma attempt_batch_run :
  forall batchNo batch ins err w,
  exists w',
    Loader.attempt_batch batchNo batch ins err w
    = (Ok (if failed (next_fault w)
           then (ins, err + length batch)
           else (ins + length batch, err)), w') /\
    calls w' = calls w ++ [(Insert batch "exercise_id", next_fault w)] /\
    faults w' = tl (faults w) /\
    exercises_json w' = exercises_json w /\
    (exists lines, console w' = console w ++ lines) /\
    table w' = (if failed (next_fault w) then table w
                else Sql.insert batch (table w)).
Proof.
  intros batchNo batch ins err w.
  unfold Loader.attempt_batch, try_catch, bind, Loader.insert_batch, request.
  destruct (next_fault w) eqn:Hf; cbn; eexists; repeat split;
    cbn; eexists; reflexivity.
Qed.

Lemma insert_loop_run :
  forall fuel exs B i ins err w,
    0 < B -> length exs - i <= fuel ->
    exists tr w',
      Loader.insert_loop fuel exs B i ins err w
      = (Ok (ins + rows_where succeeded tr, err + rows_where failed tr), w') /\
      loop_run exs B i w w' tr.
Proof.
  induction fuel as [| fuel IH]; intros exs B i ins err w HB Hfuel.
  - exists [], w. cbn [Loader.insert_loop].
    destruct (Nat.ltb_spec i (length exs)) as [Hlt | Hge]; [lia |].
    split.
    + unfold ret, rows_where. cbn. do 2 f_equal; f_equal; lia.
    + constructor; cbn; auto.
      * now rewrite app_nil_r.
      * symmetry. apply skipn_all2. lia.
      * replace (length exs - i) with 0 by lia.
        symmetry. now apply ceil_div_zero.
      * intros j Hj. lia.
      * exists []. now rewrite app_nil_r.
      * now rewrite app_nil_r.
  - cbn [Loader.insert_loop].
    destruct (Nat.ltb_spec i (length exs)) as [Hlt | Hge].
    + destruct (attempt_batch_run (i / B + 1) (Js.slice exs i (i + B)) ins err w)
        as (w1 & Hrun & Hcalls & Hfaults & Hfile & [lines1 Hcon] & Htable).
      unfold bind at 1. rewrite Hrun.
      unfold bind at 1. unfold sleep at 1.
      set (w2 := add_pause 100 w1).
      set (counts := if failed (next_fault w) then _ else _).
      destruct (IH exs B (i + B) (fst counts) (snd counts) w2 HB)
        as (tr & w' & Hloop & Htr); [lia |].
      set (entry := (Insert (Js.slice exs i (i + B)) "exercise_id", next_fault w)).
      exists (entry :: tr), w'. split.
      * rewrite Hloop. rewrite !rows_where_cons.
        subst counts entry. unfold succeeded. cbn.
        destruct (failed (next_fault w)); cbn; do 2 f_equal; f_equal; lia.
      * destruct Htr. constructor.
        -- rewrite run_calls0. subst w2. cbn. rewrite Hcalls.
           now rewrite <- app_assoc.
        -- cbn. assumption.
        -- cbn [map concat]. rewrite run_rows0. subst entry. cbn.
           apply slice_then_rest.
        -- constructor; [| assumption]. subst entry. cbn. apply slice_length.
        -- cbn [length]. rewrite run_count0.
           rewrite (@ceil_div_step (length exs - i) B) by lia.
           do 2 f_equal. lia.
        -- intros [| j] Hj.
           ++ subst entry. cbn. unfold next_fault.
              destruct (faults w); reflexivity.
           ++ cbn [map nth snd]. cbn in Hj. rewrite run_answers0 by lia.
              subst w2. cbn. rewrite Hfaults. apply nth_tl.
        -- rewrite run_faults0. subst w2. cbn. rewrite Hfaults.
           destruct (faults w); cbn; [now rewrite skipn_nil | reflexivity].
        -- rewrite run_file0. subst w2. cbn. assumption.
        -- destruct run_console0 as [lines Hlines]. rewrite Hlines.
           subst w2. cbn. rewrite Hcon. rewrite <- app_assoc. eauto.
        -- rewrite run_table0. subst w2 entry. cbn [add_pause table].
           rewrite Htable, inserted_rows_cons. unfold succeeded. cbn.
           destruct (failed (next_fault w)); cbn.
           ++ reflexivity.
           ++ rewrite stored_ids_insert, map_app, app_assoc. reflexivity.
    + exists [], w. split.
      * unfold ret, rows_where. cbn. do 2 f_equal; f_equal; lia.
      * constructor; cbn; auto.
        -- now rewrite app_nil_r.
        -- symmetry. apply skipn_all2. lia.
        -- replace (length exs - i) with 0 by lia.
           symmetry. now apply ceil_div_zero.
        -- intros j Hj. lia.
        -- exists []. now rewrite app_nil_r.
        -- now rewrite app_nil_r.
Qed.

Lemma insertExercisesInBatches_run :
  forall fuel exs B w,
    0 < B -> length exs <= fuel ->
    exists tr w',
      Loader.insertExercisesInBatches fuel exs B w
      = (Ok (rows_where succeeded tr, rows_where failed tr), w') /\
      loop_run exs B 0 w w' tr.
Proof.
  intros fuel exs B w HB Hfuel.
  unfold Loader.insertExercisesInBatches, bind, log, print.
  match goal with
  | |- context [Loader.insert_loop _ _ _ _ _ _ ?w0] =>
      destruct (@insert_loop_run fuel exs B 0 0 0 w0 HB) as (tr & w' & Hrun & Htr);
      [lia |]
  end.
  exists tr, w'. split; [exact Hrun |].
  destruct Htr. cbn in *. constructor; auto.
  destruct run_console0 as [lines Hlines]. rewrite Hlines.
  rewrite <- app_assoc. eauto.
Qed.

Lemma all_inserts_batches :
  forall tr, forallb is_insert tr = true -> insert_batches tr = map batch_of tr.
Proof.
  intros tr Htr. unfold insert_batches.
  induction tr as [| entry tr IH]; [reflexivity |].
  cbn in Htr |- *. apply andb_prop in Htr as [He Htr].
  rewrite He. cbn. now rewrite IH.
Qed.

End BatchLoop.

(** [ceil_div] is the ceiling of the quotient: the least number of groups of
    [b] that hold [n] items. *)
Lemma ceil_div_is_ceiling :
  forall n b k, 0 < b -> (ceil_div n b <= k <-> n <= k * b).
Proof.
  intros n b k Hb. unfold ceil_div.
  pose proof (Nat.div_mod_eq (n + b - 1) b) as Hdiv.
  pose proof (Nat.mod_upper_bound (n + b - 1) b ltac:(lia)) as Hmod.
  split; intros H; nia.
Qed.

(** C9.  For a batch size [B > 0] (the loader's is 100) and fuel for one
    round per row, the batch loop returns, and the batches it has submitted,
    read in the order of the calls and joined end to end, are the input
    list: no row is dropped, repeated or moved. *)
Theorem insertExercisesInBatches_partitions_input :
  forall (fuel : nat) (exs : list DatabaseExercise) (B : nat) (w : World),
    0 < B -> length exs <= fuel ->
    exists counts w' tr,
      Loader.insertExercisesInBatches fuel exs B w = (Ok counts, w') /\
      calls w' = calls w ++ tr /\
      concat (Trace.insert_batches tr) = exs.
Proof.
  intros fuel exs B w HB Hfuel.
  destruct (insertExercisesInBatches_run exs w HB Hfuel) as (tr & w' & Hrun & Htr).
  exists (Trace.rows_where Trace.succeeded tr, Trace.rows_where failed tr), w', tr.
  destruct Htr. repeat split; auto.
  rewrite all_inserts_batches by assumption. rewrite run_rows0. reflexivity.
Qed.

(** C4.  [N > 0] rows in batches of [B > 0]: the loop returns after exactly
    [ceil(N/B)] calls, all of them insert calls, none carrying more than [B]
    rows. *)
Theorem insertExercisesInBatches_call_count :
  forall (fuel : nat) (exs : list DatabaseExercise) (B : nat) (w : World),
    0 < length exs -> 0 < B -> length exs <= fuel ->
    exists counts w' tr,
      Loader.insertExercisesInBatches fuel exs B w = (Ok counts, w') /\
      calls w' = calls w ++ tr /\
      length tr = ceil_div (length exs) B /\
      length (Trace.insert_batches tr) = ceil_div (length exs) B /\
      Forall (fun batch => length batch <= B) (Trace.insert_batches tr).
Proof.
  intros fuel exs B w _ HB Hfuel.
  destruct (insertExercisesInBatches_run exs w HB Hfuel) as (tr & w' & Hrun & Htr).
  exists (Trace.rows_where Trace.succeeded tr, Trace.rows_where failed tr), w', tr.
  destruct Htr. rewrite Nat.sub_0_r in run_count0.
  rewrite all_inserts_batches by assumption.
  repeat split; auto.
  - now rewrite length_map.
  - apply Forall_map. assumption.
Qed.

(** C3.  Whatever the store answers to each batch ([faults w] is any list
    of answers), the loop returns and every batch has been submitted: the
    calls are all inserts, [ceil(N/B)] of them, together they carry the whole
    input, and the [j]-th call has received the [j]-th answer.  The final
    [errorCount] is the number of rows in the batches whose call failed
    (store error or exception) and [insertedCount] the number of rows in the
    others. *)
Theorem insertExercisesInBatches_partial_failure :
  forall (fuel : nat) (exs : list DatabaseExercise) (B : nat) (w : World),
    0 < B -> length exs <= fuel ->
    exists insertedCount errorCount w' tr,
      Loader.insertExercisesInBatches fuel exs B w
      = (Ok (insertedCount, errorCount), w') /\
      calls w' = calls w ++ tr /\
      forallb Trace.is_insert tr = true /\
      length tr = ceil_div (length exs) B /\
      concat (Trace.insert_batches tr) = exs /\
      (forall j, j < length tr ->
                 nth j (map snd tr) NoFault = nth j (faults w) NoFault) /\
      errorCount = Trace.rows_where failed tr /\
      insertedCount = Trace.rows_where Trace.succeeded tr.
Proof.
  intros fuel exs B w HB Hfuel.
  destruct (insertExercisesInBatches_run exs w HB Hfuel) as (tr & w' & Hrun & Htr).
  exists (Trace.rows_where Trace.succeeded tr), (Trace.rows_where failed tr), w', tr.
  destruct Htr. rewrite Nat.sub_0_r in run_count0.
  repeat split; auto.
  rewrite all_inserts_batches by assumption. rewrite run_rows0. reflexivity.
Qed.

(** Five rows in batches of two against a store that rejects the first
    batch and throws on the third: three calls, two rows inserted, three
    failed. *)
Example partial_failure_run :
  fst (Loader.insertExercisesInBatches
         5 Sample.rows 2
         (Sample.world [] None Sample.flaky))
  = Ok (2, 3) /\
  map (fun batch => map exercise_id batch)
      (Trace.insert_batches
         (calls (snd (Loader.insertExercisesInBatches
                        5 Sample.rows 2
                        (Sample.world [] None
                                      Sample.flaky)))))
  = [["e1"; "e2"]; ["e3"; "e4"]; ["e5"]].
Proof.
  split; reflexivity.
Qed.

(** With a batch size of zero the index never advances: whatever the fuel,
    the loop does not return.  The bound [0 < B] of the three theorems on
    the loop is needed. *)
Lemma zero_batch_size_never_returns :
  forall fuel exs i ins err w,
    i < length exs ->
    fst (Loader.insert_loop fuel exs 0 i ins err w) = Diverge.
Proof.
  induction fuel as [| fuel IH]; intros exs i ins err w Hi;
    cbn [Loader.insert_loop];
    destruct (Nat.ltb_spec i (length exs)) as [_ | Hge]; try lia.
  - reflexivity.
  - destruct (attempt_batch_run (i / 0 + 1) (Js.slice exs i (i + 0)) ins err w)
      as (w1 & Hrun & _).
    rewrite (@bind_ok _ _ _ _ _ _ _ Hrun).
    unfold sleep, bind. rewrite Nat.add_0_r. apply IH. assumption.
Qed.

Lemma insertExercisesInBatches_partitions_input_witness :
  exists counts w' tr,
    Loader.insertExercisesInBatches
      5 Sample.rows 2 (Sample.world [] None Sample.flaky)
    = (Ok counts, w') /\
    calls w' = calls (Sample.world [] None Sample.flaky) ++ tr /\
    concat (Trace.insert_batches tr) = Sample.rows.
Proof.
  apply (@insertExercisesInBatches_partitions_input
           5 Sample.rows 2 (Sample.world [] None Sample.flaky));
    cbn; lia.
Defined.

Lemma insertExercisesInBatches_call_count_witness :
  exists counts w' tr,
    Loader.insertExercisesInBatches
      5 Sample.rows 2 (Sample.world [] None Sample.flaky)
    = (Ok counts, w') /\
    calls w' = calls (Sample.world [] None Sample.flaky) ++ tr /\
    length tr = ceil_div (length Sample.rows) 2 /\
    length (Trace.insert_batches tr) = ceil_div (length Sample.rows) 2 /\
    Forall (fun batch => length batch <= 2) (Trace.insert_batches tr).
Proof.
  apply (@insertExercisesInBatches_call_count
           5 Sample.rows 2 (Sample.world [] None Sample.flaky));
    cbn; lia.
Defined.

Lemma insertExercisesInBatches_partial_failure_witness :
  exists insertedCount errorCount w' tr,
    Loader.insertExercisesInBatches
      5 Sample.rows 2 (Sample.world [] None Sample.flaky)
    = (Ok (insertedCount, errorCount), w') /\
    calls w' = calls (Sample.world [] None Sample.flaky) ++ tr /\
    forallb Trace.is_insert tr = true /\
    length tr = ceil_div (length Sample.rows) 2 /\
    concat (Trace.insert_batches tr) = Sample.rows /\
    (forall j, j < length tr ->
               nth j (map snd tr) NoFault
               = nth j (faults (Sample.world [] None Sample.flaky)) NoFault) /\
    errorCount = Trace.rows_where failed tr /\
    insertedCount = Trace.rows_where Trace.succeeded tr.
Proof.
  apply (@insertExercisesInBatches_partial_failure
           5 Sample.rows 2 (Sample.world [] None Sample.flaky));
    cbn; lia.
Defined.

(** ** The loader's run *)

Section LoaderRun.

Import Trace.

Lemma since_app :
  forall (A : Type) (xs ys : list A), skipn (length xs) (xs ++ ys) = ys.
Proof.
  intros A xs ys. rewrite skipn_app, skipn_all, Nat.sub_diag. reflexivity.
Qed.

Lemma filter_no_clause : forall t : list Row, filter (Sql.selected []) t = t.
Proof.
  induction t as [| r t IH]; cbn; congruence.
Qed.

Lemma checkExistingExercises_run :
  forall w,
  exists w',
    Loader.checkExistingExercises w = (Ok (known_ids (next_fault w) (table w)), w') /\
    calls w' = calls w ++ [(Select "exercise_id" [] None, next_fault w)] /\
    faults w' = tl (faults w) /\
    table w' = table w /\
    exercises_json w' = exercises_json w /\
    exists lines, console w' = console w ++ lines.
Proof.
  intros w.
  unfold Loader.checkExistingExercises, try_catch, bind,
    Loader.select_exercise_ids, request.
  destruct (next_fault w) eqn:Hf; cbn; rewrite ?filter_no_clause;
    (eexists; split; [reflexivity |]); repeat split; cbn;
    solve [eexists; reflexivity | exists []; now rewrite app_nil_r].
Qed.

Lemma connection_test_run :
  forall w,
    failed (next_fault w) = false ->
    exists r w',
      Loader.connection_test w = (Ok r, w') /\
      error r = None /\
      calls w' = calls w ++ [(Select "count" [] (Some 1), next_fault w)] /\
      faults w' = tl (faults w) /\
      table w' = table w /\
      exercises_json w' = exercises_json w /\
      console w' = console w.
Proof.
  intros w Hf. unfold Loader.connection_test, request.
  destruct (next_fault w); try discriminate; cbn;
    (do 2 eexists; split; [reflexivity |]); repeat split.
Qed.

Lemma loadExercisesFromJSON_run :
  forall w,
    match exercises_json w with
    | Some exs =>
        Loader.loadExercisesFromJSON w = (Ok exs, add_line Stdout (ReadCount (length exs)) w)
    | None =>
        exists e, Loader.loadExercisesFromJSON w = (Throw e, add_line Stderr (ReadFailed e) w)
    end.
Proof.
  intros w.
  unfold Loader.loadExercisesFromJSON, try_catch, bind, read_exercises_json.
  destruct (exercises_json w); cbn; [reflexivity | eexists; reflexivity].
Qed.

Lemma main_body_probe_thrown :
  forall w e,
    next_fault w = Thrown e ->
    exists w',
      Loader.main_body w = (Throw e, w') /\
      calls w' = calls w ++ [(Select "count" [] (Some 1), Thrown e)] /\
      table w' = table w.
Proof.
  intros w e Hf.
  unfold Loader.main_body, log. rewrite !print_then.
  unfold bind, Loader.connection_test, request.
  replace (next_fault (add_line _ _ (add_line _ _ w))) with (next_fault w)
    by reflexivity.
  rewrite Hf. eexists; repeat split.
Qed.

Lemma main_body_probe_error :
  forall w message,
    next_fault w = StoreError message ->
    exists w',
      Loader.main_body w = (Ok tt, w') /\
      calls w' = calls w ++ [(Select "count" [] (Some 1), StoreError message)] /\
      table w' = table w /\
      console w' = console w ++ [(Stdout, PopulateStart);
                                 (Stdout, TestingConnection);
                                 (Stderr, CannotConnect message)].
Proof.
  intros w message Hf.
  unfold Loader.main_body, log. rewrite !print_then.
  unfold bind, Loader.connection_test, request.
  replace (next_fault (add_line _ _ (add_line _ _ w))) with (next_fault w)
    by reflexivity.
  rewrite Hf. eexists; repeat split. cbn. rewrite <- !app_assoc. reflexivity.
Qed.

Lemma hd_tl :
  forall (A : Type) (xs : list A) (d : A), hd d (tl xs) = nth 1 xs d.
Proof.
  intros A [| x [| y xs]] d; reflexivity.
Qed.

(** The run of [main]'s body once the connectivity probe is answered
    without error. *)
Lemma main_body_connected :
  forall w,
    failed (next_fault w) = false ->
    let answer := nth 1 (faults w) NoFault in
    let head := [(Select "count" [] (Some 1), next_fault w);
                 (Select "exercise_id" [] None, answer)] in
    match exercises_json w with
    | None =>
        exists e w',
          Loader.main_body w = (Throw e, w') /\
          calls w' = calls w ++ head /\
          table w' = table w
    | Some exs =>
        let new := Loader.new_exercises (known_ids answer (table w))
                                        (map mapExerciseToDatabase exs) in
        exists tr w' lines,
          Loader.main_body w = (Ok tt, w') /\
          calls w' = calls w ++ head ++ tr /\
          forallb is_insert tr = true /\
          concat (map batch_of tr) = new /\
          length tr = ceil_div (length new) 100 /\
          console w' = console w ++ lines /\
          (new = [] -> In (Stdout, AllPresent) lines /\ table w' = table w) /\
          (new <> [] ->
           In (Stdout, SummaryTitle) lines /\
           In (Stdout, SummaryInserted (rows_where succeeded tr)) lines /\
           In (Stdout, SummaryFailed (rows_where failed tr)) lines) /\
          stored_ids (table w')
          = stored_ids (table w) ++ map exercise_id (inserted_rows tr) /\
          (forall j, j < length tr ->
                     nth j (map snd tr) NoFault = nth (2 + j) (faults w) NoFault)
    end.
Proof.
  intros w Hf answer head.
  unfold Loader.main_body, log. rewrite !print_then.
  set (wa := add_line Stdout TestingConnection (add_line Stdout PopulateStart w)).
  destruct (@connection_test_run wa Hf)
    as (r & w1 & Hrun1 & Herr1 & Hcalls1 & Hfaults1 & Htable1 & Hfile1 & Hcon1).
  rewrite (@bind_ok _ _ _ _ _ _ _ Hrun1), Herr1. rewrite !print_then.
  set (wb := add_line Stdout CheckingExisting (add_line Stdout ConnectionOk w1)).
  destruct (checkExistingExercises_run wb)
    as (w2 & Hrun2 & Hcalls2 & Hfaults2 & Htable2 & Hfile2 & lines2 & Hcon2).
  rewrite (@bind_ok _ _ _ _ _ _ _ Hrun2). rewrite print_then.
  assert (Hanswer : next_fault wb = answer).
  { subst wb answer. unfold next_fault. cbn. rewrite Hfaults1. apply hd_tl. }
  assert (Htable : table wb = table w).
  { subst wb. cbn. rewrite Htable1. reflexivity. }
  rewrite Hanswer, Htable in *.
  set (wc := add_line Stdout _ w2).
  pose proof (loadExercisesFromJSON_run wc) as Hload.
  assert (Hfile : exercises_json wc = exercises_json w).
  { subst wc wb. cbn. rewrite Hfile2. cbn. rewrite Hfile1. reflexivity. }
  assert (Htablec : table wc = table w).
  { subst wc. cbn. exact Htable2. }
  assert (Hfaultsc : faults wc = tl (tl (faults w))).
  { subst wc wb. cbn. rewrite Hfaults2. cbn. rewrite Hfaults1. reflexivity. }
  assert (Hcalls : calls wc = calls w ++ head).
  { subst wc wb head. cbn. rewrite Hcalls2. cbn. rewrite Hcalls1.
    rewrite <- app_assoc. reflexivity. }
  assert (Hcon : exists lines, console wc = console w ++ lines).
  { subst wc wb. cbn. rewrite Hcon2. cbn. rewrite Hcon1. subst wa. cbn.
    rewrite <- !app_assoc. eauto. }
  clearbody wc. clear Hrun1 Hrun2.
  rewrite Hfile in Hload.
  destruct (exercises_json w) as [exs |].
  - rewrite (@bind_ok _ _ _ _ _ _ _ Hload). rewrite !print_then.
    set (new := Loader.new_exercises _ _).
    set (wd := add_line Stdout (SkippedCount _) _).
    assert (Hcallsd : calls wd = calls w ++ head) by exact Hcalls.
    assert (Htabled : table wd = table w) by exact Htablec.
    assert (Hfaultsd : faults wd = tl (tl (faults w))) by exact Hfaultsc.
    assert (Hcond : exists lines, console wd = console w ++ lines).
    { destruct Hcon as [lines Hlines]. subst wd. cbn. rewrite Hlines.
      rewrite <- !app_assoc. eauto. }
    clearbody wd. destruct Hcond as [linesd Hcond].
    destruct (Nat.eqb_spec (length new) 0) as [Hnone | Hsome].
    + exists [], (add_line Stdout AllPresent wd), (linesd ++ [(Stdout, AllPresent)]).
      apply length_zero_iff_nil in Hnone. rewrite Hnone.
      split; [reflexivity |].
      split; [rewrite app_nil_r; exact Hcallsd |].
      split; [reflexivity |]. split; [reflexivity |]. split; [reflexivity |].
      split; [cbn; rewrite Hcond, <- app_assoc; reflexivity |].
      split; [intros _; split;
              [apply in_or_app; right; now left | exact Htabled] |].
      split; [intros Hne; now contradict Hne |].
      split; [cbn; rewrite Htabled, app_nil_r; reflexivity |].
      intros j Hj. cbn in Hj. lia.
    + destruct (@insertExercisesInBatches_run (length new) new 100 wd)
        as (tr & w4 & Hrun4 & Htr); [lia | lia |].
      destruct Htr. rewrite Nat.sub_0_r in run_count0.
      destruct run_console0 as [lines4 Hcon4].
      rewrite (@bind_ok _ _ _ _ _ _ _ Hrun4). cbn [fst snd]. rewrite !print_then.
      set (we := add_line Stdout SummaryRule _).
      assert (Hcallse : calls we = calls w ++ head ++ tr).
      { subst we. cbn. rewrite run_calls0, Hcallsd, <- app_assoc. reflexivity. }
      assert (Hcone : console we
                      = console w ++ linesd ++ lines4
                        ++ [(Stdout, SummaryRule); (Stdout, SummaryTitle);
                            (Stdout, SummaryInserted (rows_where succeeded tr));
                            (Stdout, SummaryFailed (rows_where failed tr));
                            (Stdout, SummaryInactive); (Stdout, SummaryGifPaths);
                            (Stdout, SummaryRule)]).
      { subst we. cbn. rewrite Hcon4, Hcond, <- !app_assoc. reflexivity. }
      assert (Htablee : stored_ids (table we)
                        = stored_ids (table w) ++ map exercise_id (inserted_rows tr)).
      { subst we. cbn [add_line table]. rewrite run_table0, Htabled. reflexivity. }
      clearbody we.
      assert (Hend : exists w' tail,
                 (if 0 <? rows_where succeeded tr
                  then
                    print Stdout NextSteps ;;
                    print Stdout (NextStep 1) ;;
                    print Stdout (NextStep 2) ;;
                    print Stdout (NextStep 3) ;; print Stdout (NextStep 4)
                  else ret tt) we = (Ok tt, w') /\
                 calls w' = calls we /\ console w' = console we ++ tail /\
                 table w' = table we).
      { destruct (0 <? rows_where succeeded tr).
        - rewrite !print_then. do 2 eexists. split; [reflexivity |].
          split; [reflexivity |]. split; [| reflexivity].
          cbn. rewrite <- !app_assoc. reflexivity.
        - exists we, []. rewrite app_nil_r. repeat split. }
      destruct Hend as (w' & tail & Hrun & Hcalls' & Hcon' & Htable').
      exists tr, w'. eexists. split; [exact Hrun |].
      split; [congruence |]. split; [assumption |]. split; [assumption |].
      split; [assumption |].
      split; [rewrite Hcon', Hcone, <- !app_assoc; reflexivity |].
      split; [intros Hnew; rewrite Hnew in Hsome; now contradict Hsome |].
      split; [intros _; rewrite !in_app_iff; cbn; auto 12 |].
      split; [rewrite Htable'; exact Htablee |].
      intros j Hj. rewrite run_answers0, Hfaultsd by assumption.
      rewrite !nth_tl. reflexivity.
  - destruct Hload as [e Hload]. rewrite (@bind_throw _ _ _ _ _ _ _ Hload).
    do 2 eexists. split; [reflexivity |]. split; [exact Hcalls | exact Htablec].
Qed.

End LoaderRun.

(** ** From [main]'s body to the process *)

Section LoaderProcess.

Import Trace.

Lemma config_missing_absent :
  forall env, config_missing env = true <-> config_absent env.
Proof.
  intros [[[| c url] |] [[| d key] |]]; unfold config_missing, config_absent, absent;
    cbn; split; intros H; try reflexivity; try discriminate; auto;
    destruct H as [[H | H] | [H | H]]; discriminate H.
Qed.

Lemma config_present :
  forall env, ~ config_absent env -> config_missing env = false.
Proof.
  intros env H. destruct (config_missing env) eqn:Hc; [| reflexivity].
  exfalso. now apply H, config_missing_absent.
Qed.

Lemma loader_script_configured :
  forall env w,
    config_missing env = false -> client_refusal env w = None ->
    Loader.script env w = Loader.main w.
Proof.
  intros env w Hc Hclient. unfold Loader.script, bind, createClient, ret.
  unfold client_refusal in Hclient. cbv zeta. rewrite Hc. cbv beta iota.
  rewrite Hclient. reflexivity.
Qed.

Lemma loader_script_without_client :
  forall env w e,
    config_missing env = false -> client_refusal env w = Some e ->
    Loader.script env w = (Throw e, w).
Proof.
  intros env w e Hc Hclient. unfold Loader.script, bind, createClient, ret.
  unfold client_refusal in Hclient. cbv zeta. rewrite Hc. cbv beta iota.
  rewrite Hclient. reflexivity.
Qed.

Lemma loader_script_unconfigured :
  forall env w,
    config_missing env = true ->
    Loader.script env w
    = (Exit 1, add_line Stderr MissingConfigHint (add_line Stderr MissingConfig w)).
Proof.
  intros env w Hc. unfold Loader.script. rewrite Hc. reflexivity.
Qed.

Lemma main_caught :
  forall w e w1,
    Loader.main_body w = (Throw e, w1) ->
    Loader.main w = (Exit 1, add_line Stderr (Critical e) w1).
Proof.
  intros w e w1 H. unfold Loader.main, try_catch. rewrite H. reflexivity.
Qed.

Lemma main_returned :
  forall w w1, Loader.main_body w = (Ok tt, w1) -> Loader.main w = (Ok tt, w1).
Proof.
  intros w w1 H. unfold Loader.main, try_catch. rewrite H. reflexivity.
Qed.

Lemma new_exercises_none_known :
  forall rows, Loader.new_exercises [] rows = rows.
Proof.
  intros rows. unfold Loader.new_exercises.
  induction rows as [| r rows IH]; [reflexivity |].
  cbn. f_equal. exact IH.
Qed.

Lemma includes_In :
  forall xs x, Js.includes xs x = true <-> In x xs.
Proof.
  intros xs x. unfold Js.includes. rewrite existsb_exists. split.
  - intros (y & Hy & Heq). apply String.eqb_eq in Heq. now subst.
  - intros H. exists x. split; [assumption | apply String.eqb_refl].
Qed.

Lemma new_exercises_all_known :
  forall existing exs,
    (forall ex, In ex exs -> In (exerciseId ex) existing) ->
    Loader.new_exercises existing (map mapExerciseToDatabase exs) = [].
Proof.
  intros existing exs Hall. unfold Loader.new_exercises.
  induction exs as [| ex exs IH]; [reflexivity |].
  cbn [map filter].
  replace (Js.includes existing (exercise_id (mapExerciseToDatabase ex)))
    with true.
  - cbn. apply IH. intros ex' Hin. apply Hall. now right.
  - symmetry. apply includes_In. apply Hall. now left.
Qed.

Lemma no_rows_no_calls :
  forall tr : list (call * fault),
    length tr = ceil_div 0 100 -> tr = [].
Proof.
  intros tr H. apply length_zero_iff_nil. rewrite H. reflexivity.
Qed.

End LoaderProcess.

(** C6.  The identifier query is one select on [exercise_id] without filter
    or limit; [checkExistingExercises] never throws, and hands back the empty
    list when the query fails (store error or exception).  [main] then goes
    on: with the probe answered and the file readable, it returns normally,
    its calls after the probe and the one identifier query are all inserts,
    and the batches they submit carry every transformed row. *)
Theorem failed_id_query_is_not_fatal :
  forall w : World,
    (exists existing w1,
        Loader.checkExistingExercises w = (Ok existing, w1) /\
        calls_since w w1 = [(Select "exercise_id" [] None, next_fault w)] /\
        (failed (next_fault w) = true -> existing = [])) /\
    (forall exs,
        failed (next_fault w) = false ->
        failed (nth 1 (faults w) NoFault) = true ->
        exercises_json w = Some exs ->
        exists tr w',
          Loader.main w = (Ok tt, w') /\
          calls_since w w'
          = [(Select "count" [] (Some 1), next_fault w);
             (Select "exercise_id" [] None, nth 1 (faults w) NoFault)] ++ tr /\
          forallb Trace.is_insert tr = true /\
          concat (Trace.insert_batches tr) = map mapExerciseToDatabase exs).
Proof.
  intros w. split.
  - destruct (checkExistingExercises_run w) as (w1 & Hrun & Hcalls & _).
    exists (known_ids (next_fault w) (table w)), w1.
    split; [exact Hrun |]. split.
    + unfold calls_since. rewrite Hcalls. apply since_app.
    + destruct (next_fault w); cbn; intros H; first [discriminate H | reflexivity].
  - intros exs Hprobe Hquery Hjson.
    pose proof (main_body_connected w Hprobe) as Hmain.
    rewrite Hjson in Hmain. cbv zeta in Hmain.
    destruct Hmain as (tr & w' & lines & Hrun & Hcalls & Hins & Hrows & _).
    exists tr, w'. split; [now apply main_returned |]. split; [| split].
    + unfold calls_since. rewrite Hcalls. apply since_app.
    + exact Hins.
    + rewrite all_inserts_batches by assumption. rewrite Hrows.
      destruct (nth 1 (faults w) NoFault); try discriminate;
        apply new_exercises_none_known.
Qed.

Lemma failed_id_query_is_not_fatal_witness :
  exists tr w',
    Loader.main (Sample.world Sample.populated (Some Sample.file)
                              [NoFault; StoreError "timeout"])
    = (Ok tt, w') /\
    calls_since (Sample.world Sample.populated (Some Sample.file)
                              [NoFault; StoreError "timeout"]) w'
    = [(Select "count" [] (Some 1), NoFault);
       (Select "exercise_id" [] None, StoreError "timeout")] ++ tr /\
    forallb Trace.is_insert tr = true /\
    concat (Trace.insert_batches tr) = map mapExerciseToDatabase Sample.file.
Proof.
  apply (proj2 (failed_id_query_is_not_fatal
                  (Sample.world Sample.populated (Some Sample.file)
                                [NoFault; StoreError "timeout"]))
               Sample.file); reflexivity.
Defined.

(** C1, as worded, fails: with every identifier of the file in the table,
    a run whose identifier query is answered with an error submits all five
    rows again. *)
Lemma rerun_inserts_after_failed_id_query :
  all_stored (Sample.world Sample.populated (Some Sample.file)
                           [NoFault; StoreError "timeout"]) /\
  Trace.insert_batches
    (calls_since
       (Sample.world Sample.populated (Some Sample.file)
                     [NoFault; StoreError "timeout"])
       (snd (Loader.script Sample.env
                           (Sample.world Sample.populated (Some Sample.file)
                                         [NoFault; StoreError "timeout"]))))
  = [Sample.rows] /\
  ~ reruns_insert_nothing.
Proof.
  assert (Hstored : all_stored (Sample.world Sample.populated (Some Sample.file)
                                             [NoFault; StoreError "timeout"])).
  { intros exs Hexs ex Hin. cbn in Hexs. injection Hexs as <-.
    cbn in Hin |- *. intuition (subst; cbn; auto 10). }
  split; [exact Hstored |]. split; [vm_compute; reflexivity |].
  intros Hclaim. specialize (Hclaim Sample.env _ Hstored).
  vm_compute in Hclaim. discriminate Hclaim.
Qed.

(** C1, amended.  When every identifier of the input file is in the table
    and the identifier query is answered with its rows (the second call the
    loader issues, when it gets that far), a run of the loader issues no
    insert call and leaves the table as it is. *)
Theorem rerun_inserts_nothing :
  forall (env : Env) (w : World),
    all_stored w ->
    nth 1 (faults w) NoFault = NoFault ->
    Trace.insert_batches (calls_since w (snd (Loader.script env w))) = [] /\
    table (snd (Loader.script env w)) = table w.
Proof.
  intros env w Hall Hquery.
  destruct (config_missing env) eqn:Hconfig.
  - rewrite loader_script_unconfigured by assumption. cbn.
    unfold calls_since. rewrite skipn_all. split; reflexivity.
  - destruct (client_refusal env w) as [refusal |] eqn:Hclient.
    { rewrite (@loader_script_without_client env w _ Hconfig Hclient). cbn [snd].
      unfold calls_since. rewrite skipn_all. split; reflexivity. }
    rewrite loader_script_configured by assumption.
    destruct (failed (next_fault w)) eqn:Hprobe.
    + destruct (next_fault w) as [| | message | e] eqn:Hnext; try discriminate.
      * destruct (main_body_probe_error w Hnext) as (w' & Hrun & Hcalls & Htable & _).
        rewrite (main_returned _ Hrun). cbn [snd].
        unfold calls_since. rewrite Hcalls, since_app. split; [reflexivity | exact Htable].
      * destruct (main_body_probe_thrown w Hnext) as (w' & Hrun & Hcalls & Htable).
        rewrite (main_caught _ Hrun). cbn [snd].
        unfold calls_since. cbn. rewrite Hcalls, since_app.
        split; [reflexivity | exact Htable].
    + pose proof (main_body_connected w Hprobe) as Hmain. cbv zeta in Hmain.
      rewrite Hquery in Hmain. cbn [known_ids] in Hmain.
      destruct (exercises_json w) as [exs |] eqn:Hjson.
      * destruct Hmain as (tr & w' & lines & Hrun & Hcalls & _ & _ & Hcount & _ & Hnone & _).
        rewrite (new_exercises_all_known (stored_ids (table w)) exs) in *
          by (intros ex Hin; now apply (Hall exs)).
        apply no_rows_no_calls in Hcount. subst tr.
        rewrite (main_returned _ Hrun). cbn [snd].
        unfold calls_since. rewrite Hcalls, since_app.
        split; [reflexivity | now apply Hnone].
      * destruct Hmain as (e & w' & Hrun & Hcalls & Htable).
        rewrite (main_caught _ Hrun). cbn [snd].
        unfold calls_since. cbn. rewrite Hcalls, since_app.
        split; [reflexivity | exact Htable].
Qed.

Lemma rerun_inserts_nothing_witness :
  Trace.insert_batches
    (calls_since
       (Sample.world Sample.populated (Some Sample.file) [])
       (snd (Loader.script Sample.env
                           (Sample.world Sample.populated (Some Sample.file) []))))
  = [] /\
  table (snd (Loader.script Sample.env
                            (Sample.world Sample.populated (Some Sample.file) [])))
  = table (Sample.world Sample.populated (Some Sample.file) []).
Proof.
  apply (@rerun_inserts_nothing
           Sample.env (Sample.world Sample.populated (Some Sample.file) [])).
  - intros exs Hexs ex Hin. cbn in Hexs. injection Hexs as <-.
    cbn in Hin |- *. intuition (subst; cbn; auto 10).
  - reflexivity.
Defined.

(** ** The activator's run *)

Section ActivatorRun.

Import Trace.

Lemma activator_script_configured :
  forall env w,
    config_missing env = false -> client_refusal env w = None ->
    Activator.script env w = Activator.activateBasicExercises w.
Proof.
  intros env w Hc Hclient. unfold Activator.script, bind, createClient, ret.
  unfold client_refusal in Hclient. cbv zeta. rewrite Hc. cbv beta iota.
  rewrite Hclient. reflexivity.
Qed.

Lemma activator_script_without_client :
  forall env w e,
    config_missing env = false -> client_refusal env w = Some e ->
    Activator.script env w = (Throw e, w).
Proof.
  intros env w e Hc Hclient. unfold Activator.script, bind, createClient, ret.
  unfold client_refusal in Hclient. cbv zeta. rewrite Hc. cbv beta iota.
  rewrite Hclient. reflexivity.
Qed.

Lemma activator_script_unconfigured :
  forall env w,
    config_missing env = true ->
    Activator.script env w = (Exit 1, add_line Stderr MissingConfig w).
Proof.
  intros env w Hc. unfold Activator.script. rewrite Hc. reflexivity.
Qed.

(** A round of the loop returns or throws, and only adds to the console. *)
Lemma activate_one_run :
  forall exerciseName w,
  exists r w' lines,
    Activator.activate_one exerciseName w = (r, w') /\
    (r = Ok tt \/ exists e, r = Throw e) /\
    console w' = console w ++ lines.
Proof.
  intros exerciseName [t json fs cs con sl ce].
  unfold Activator.activate_one, log, log_error. rewrite print_then.
  unfold bind, Activator.search, Activator.activate, request, next_fault.
  cbn.
  destruct fs as [| [| | message | e] fs]; cbn;
    try destruct (filter (Sql.selected (Activator.search_filters exerciseName)) t)
      as [| hit hits]; cbn;
    try (destruct fs as [| [| | message' | e'] fs]; cbn);
    do 3 eexists; (split; [reflexivity |]); cbn;
    (split; [solve [left; reflexivity | right; eexists; reflexivity] |]);
    rewrite <- ?app_assoc; reflexivity.
Qed.

Lemma for_each_run :
  forall names w,
  exists r w' lines,
    Activator.for_each names Activator.activate_one w = (r, w') /\
    (r = Ok tt \/ exists e, r = Throw e) /\
    console w' = console w ++ lines.
Proof.
  induction names as [| exerciseName rest IH]; intros w.
  - exists (Ok tt), w, []. cbn. rewrite app_nil_r. auto.
  - cbn [Activator.for_each].
    destruct (activate_one_run exerciseName w)
      as (r & w1 & lines1 & Hrun & [-> | [e ->]] & Hcon).
    + rewrite (@bind_ok _ _ _ _ _ _ _ Hrun).
      destruct (IH w1) as (r' & w' & lines & Hrest & Hr & Hcon').
      exists r', w', (lines1 ++ lines). repeat split; auto.
      rewrite Hcon', Hcon, app_assoc. reflexivity.
    + rewrite (@bind_throw _ _ _ _ _ _ _ Hrun).
      exists (Throw e), w1, lines1. eauto.
Qed.

Lemma count_active_run :
  forall w,
    (exists e w', Activator.count_active w = (Throw e, w')) \/
    (exists r w', Activator.count_active w = (Ok r, w') /\ console w' = console w).
Proof.
  intros w. unfold Activator.count_active, request.
  destruct (next_fault w); cbn; eauto.
Qed.

(** The [try] block of [activateBasicExercises] either throws or returns
    after printing the closing line. *)
Lemma activate_body_run :
  forall w,
    (exists e w1, Activator.activate_body w = (Throw e, w1)) \/
    (exists w1 lines activeCount,
        Activator.activate_body w = (Ok tt, w1) /\
        console w1 = console w ++ lines /\
        In (Stdout, Finished activeCount) lines).
Proof.
  intros w. unfold Activator.activate_body, log. rewrite print_then.
  set (wa := add_line Stdout ActivateStart w).
  destruct (for_each_run Activator.BASIC_EXERCISES wa)
    as (r & w1 & lines1 & Hrun & [-> | [e ->]] & Hcon1).
  - rewrite (@bind_ok _ _ _ _ _ _ _ Hrun).
    destruct (count_active_run w1) as [(e & w2 & Hcount) | (r & w2 & Hcount & Hcon2)].
    + left. rewrite (@bind_throw _ _ _ _ _ _ _ Hcount). eauto.
    + right. rewrite (@bind_ok _ _ _ _ _ _ _ Hcount). rewrite !print_then.
      do 3 eexists. split; [reflexivity |]. split.
      * cbn. rewrite Hcon2, Hcon1. subst wa. cbn.
        rewrite <- !app_assoc. reflexivity.
      * rewrite !in_app_iff. cbn. auto 8.
  - left. rewrite (@bind_throw _ _ _ _ _ _ _ Hrun). eauto.
Qed.

End ActivatorRun.

(** C5.  When no inactive row matches the name, the round issues the search
    and nothing else, whatever the store answers to the search: no update
    call, the table as it was, and so the same inactive rows. *)
Theorem no_match_no_update :
  forall (exerciseName : string) (w : World),
    Activator.matches exerciseName (table w) = [] ->
    exists r w',
      Activator.activate_one exerciseName w = (r, w') /\
      calls_since w w'
      = [(Select "id, name, exercise_id"
                 (Activator.search_filters exerciseName) None, next_fault w)] /\
      existsb Trace.is_update (calls_since w w') = false /\
      table w' = table w /\
      inactive_rows (table w') = inactive_rows (table w).
Proof.
  intros exerciseName [t json fs cs con sl ce] Hnone. cbn in Hnone.
  unfold Activator.activate_one, log, log_error. rewrite print_then.
  unfold bind, Activator.search, Activator.activate, request, next_fault,
    calls_since.
  cbn. rewrite Hnone.
  destruct fs as [| [| | message | e] fs]; cbn;
    do 2 eexists; (split; [reflexivity |]); cbn;
    rewrite since_app; repeat split.
Qed.

Lemma no_match_no_update_witness :
  exists r w',
    Activator.activate_one "deadlift" (Sample.world Sample.populated None [])
    = (r, w') /\
    calls_since (Sample.world Sample.populated None []) w'
    = [(Select "id, name, exercise_id"
               (Activator.search_filters "deadlift") None, NoFault)] /\
    existsb Trace.is_update
            (calls_since (Sample.world Sample.populated None []) w') = false /\
    table w' = Sample.populated /\
    inactive_rows (table w') = inactive_rows Sample.populated.
Proof.
  apply (@no_match_no_update "deadlift" (Sample.world Sample.populated None [])).
  reflexivity.
Defined.

(** C10.  When the store answers the search for a name with an error, the
    round ends after that one call, without an update and with the table
    untouched, and the loop goes on with the names that remain. *)
Theorem search_error_skips_name :
  forall (exerciseName : string) (rest : list string) (w : World) (e : string),
    next_fault w = StoreError e ->
    exists w',
      Activator.activate_one exerciseName w = (Ok tt, w') /\
      calls_since w w'
      = [(Select "id, name, exercise_id"
                 (Activator.search_filters exerciseName) None, StoreError e)] /\
      table w' = table w /\
      Activator.for_each (exerciseName :: rest) Activator.activate_one w
      = Activator.for_each rest Activator.activate_one w'.
Proof.
  intros exerciseName rest [t json fs cs con sl ce] e Hnext.
  unfold next_fault in Hnext. cbn in Hnext.
  destruct fs as [| f fs]; [discriminate |]. cbn in Hnext. subst f.
  eexists. split; [reflexivity |]. cbn.
  unfold calls_since. cbn. rewrite since_app. repeat split.
Qed.

Lemma search_error_skips_name_witness :
  exists w',
    Activator.activate_one
      "push up" (Sample.world Sample.populated None [StoreError "timeout"])
    = (Ok tt, w') /\
    calls_since (Sample.world Sample.populated None [StoreError "timeout"]) w'
    = [(Select "id, name, exercise_id"
               (Activator.search_filters "push up") None, StoreError "timeout")] /\
    table w' = Sample.populated /\
    Activator.for_each ("push up" :: ["bench press"; "chest press"])
                       Activator.activate_one
                       (Sample.world Sample.populated None [StoreError "timeout"])
    = Activator.for_each ["bench press"; "chest press"]
                         Activator.activate_one w'.
Proof.
  apply (@search_error_skips_name
           "push up" ["bench press"; "chest press"]
           (Sample.world Sample.populated None [StoreError "timeout"]) "timeout").
  reflexivity.
Defined.

(** ** Exit status *)

Lemma sample_env_configured : ~ config_absent Sample.env.
Proof.
  intros [[H | H] | [H | H]]; discriminate H.
Qed.

(** C2, as worded, fails for the loader: with the configuration present,
    the client created and the connectivity probe answered with an error,
    [main] returns early; no error comes up to the top level, the process
    ends with status 0, and neither the summary block nor the all-present
    notice has been printed. *)
Lemma failed_probe_exits_zero_without_summary :
  config_missing Sample.env = false /\
  ~ config_absent Sample.env /\
  ~ top_level_error Sample.env Loader.main_body Sample.unreachable /\
  Loader.main_body Sample.unreachable
  = (Ok tt, snd (Loader.script Sample.env Sample.unreachable)) /\
  exit_status (fst (Loader.script Sample.env Sample.unreachable)) = Some 0 /\
  output_since Sample.unreachable (snd (Loader.script Sample.env Sample.unreachable))
  = [(Stdout, PopulateStart); (Stdout, TestingConnection);
     (Stderr, CannotConnect "connection refused")] /\
  ~ exits_as_specified Loader.script Loader.main_body loader_summary.
Proof.
  assert (Hquiet : ~ top_level_error Sample.env Loader.main_body Sample.unreachable).
  { intros [[e He] | (e & w1 & Hthrow)]; [discriminate He | discriminate Hthrow]. }
  split; [reflexivity |]. split; [exact sample_env_configured |].
  split; [exact Hquiet |].
  split; [reflexivity |]. split; [reflexivity |]. split; [reflexivity |].
  intros Hspec.
  destruct (Hspec Sample.env Sample.unreachable) as (_ & _ & Hzero).
  destruct (Hzero sample_env_configured Hquiet) as [_ Hsummary].
  destruct Hsummary as [Hin | Hin]; cbn in Hin;
    repeat (destruct Hin as [Hin | Hin]; [discriminate Hin |]); exact Hin.
Qed.

(** With the configuration present and the client created, the activator
    always ends with status 0: its handler prints the error and returns,
    where the loader's calls [process.exit(1)]. *)
Lemma activator_always_exits_zero :
  forall env w,
    config_missing env = false ->
    client_refusal env w = None ->
    exit_status (fst (Activator.script env w)) = Some 0.
Proof.
  intros env w Hconfig Hclient.
  rewrite activator_script_configured by assumption.
  unfold Activator.activateBasicExercises, try_catch.
  destruct (activate_body_run w)
    as [(e & w1 & Hrun) | (w1 & lines & n & Hrun & _)];
    rewrite Hrun; reflexivity.
Qed.

Lemma activator_swallows_thrown_search :
  Activator.activate_body (Sample.world Sample.populated None [Thrown "fetch failed"])
  = (Throw "fetch failed",
     {| table := Sample.populated; exercises_json := None; faults := [];
        calls := [(Select "id, name, exercise_id"
                          (Activator.search_filters "push up") None,
                   Thrown "fetch failed")];
        console := [(Stdout, ActivateStart); (Stdout, Searching "push up")];
        slept := 0;
        client_error := fun _ _ => None |}) /\
  exit_status
    (fst (Activator.script
            Sample.env
            (Sample.world Sample.populated None [Thrown "fetch failed"])))
  = Some 0.
Proof.
  split; reflexivity.
Qed.

(** C2, amended.  Both scripts end with status 1 when the base URL or the
    access key is unset or empty, and when the client constructor throws at
    module level; in the latter case they have printed nothing.  With the
    configuration present and the client created, the loader ends with
    status 1 when an error reaches [main]'s handler and with status 0
    otherwise; in a run that ends with status 0 it has printed its closing
    report (the summary block or the all-present notice) exactly when the
    connectivity probe was answered without error, and after a probe
    answered with an error it has printed its two opening lines and the
    connection error on standard error, nothing more.  The activator ends
    with status 0 after printing its closing line in every run in which no
    error reaches its handler. *)
Theorem exit_status_of_scripts :
  forall (env : Env) (w : World),
    (config_absent env ->
     exit_status (fst (Loader.script env w)) = Some 1 /\
     exit_status (fst (Activator.script env w)) = Some 1) /\
    (~ config_absent env ->
     (forall e,
         client_refusal env w = Some e ->
         exit_status (fst (Loader.script env w)) = Some 1 /\
         exit_status (fst (Activator.script env w)) = Some 1 /\
         output_since w (snd (Loader.script env w)) = [] /\
         output_since w (snd (Activator.script env w)) = []) /\
     (client_refusal env w = None ->
      ((exists e w1, Loader.main_body w = (Throw e, w1)) ->
       exit_status (fst (Loader.script env w)) = Some 1) /\
      (~ (exists e w1, Loader.main_body w = (Throw e, w1)) ->
       exit_status (fst (Loader.script env w)) = Some 0 /\
       (loader_summary (output_since w (snd (Loader.script env w)))
        <-> failed (next_fault w) = false) /\
       (forall message,
           next_fault w = StoreError message ->
           output_since w (snd (Loader.script env w))
           = [(Stdout, PopulateStart); (Stdout, TestingConnection);
              (Stderr, CannotConnect message)])) /\
      (~ (exists e w1, Activator.activate_body w = (Throw e, w1)) ->
       exit_status (fst (Activator.script env w)) = Some 0 /\
       activator_summary (output_since w (snd (Activator.script env w)))))).
Proof.
  intros env w. split.
  - intros Habsent. apply config_missing_absent in Habsent.
    rewrite loader_script_unconfigured, activator_script_unconfigured
      by assumption.
    split; reflexivity.
  - intros Hpresent. apply config_present in Hpresent. split.
    { intros e Hclient.
      rewrite (@loader_script_without_client env w _ Hpresent Hclient),
        (@activator_script_without_client env w _ Hpresent Hclient).
      cbn [fst snd exit_status]. unfold output_since. rewrite skipn_all.
      repeat split. }
    intros Hclient.
    rewrite loader_script_configured, activator_script_configured by assumption.
    split; [| split].
    + intros (e & w1 & Hthrow). rewrite (main_caught _ Hthrow). reflexivity.
    + intros Hquiet.
      destruct (failed (next_fault w)) eqn:Hprobe.
      * destruct (next_fault w) as [| | message | e] eqn:Hnext; try discriminate.
        -- destruct (main_body_probe_error w Hnext) as (w' & Hrun & _ & _ & Hcon).
           rewrite (main_returned _ Hrun). cbn [fst snd].
           split; [reflexivity |].
           unfold output_since. rewrite Hcon, since_app. split.
           ++ split; [| discriminate].
              intros [Hin | Hin]; cbn in Hin;
                repeat (destruct Hin as [Hin | Hin]; [discriminate Hin |]);
                contradiction.
           ++ intros message' Hmessage. injection Hmessage as <-. reflexivity.
        -- destruct (main_body_probe_thrown w Hnext) as (w' & Hrun & _).
           exfalso. apply Hquiet. eauto.
      * pose proof (main_body_connected w Hprobe) as Hmain. cbv zeta in Hmain.
        destruct (exercises_json w) as [exs |].
        -- destruct Hmain
             as (tr & w' & lines & Hrun & _ & _ & _ & _ & Hcon & Hnone & Hsome & _).
           rewrite (main_returned _ Hrun). cbn [fst snd].
           split; [reflexivity |].
           unfold output_since. rewrite Hcon, since_app. split.
           ++ split; [reflexivity |]. intros _.
              destruct (Loader.new_exercises _ _) as [| row rows].
              ** right. now apply Hnone.
              ** left. now apply Hsome.
           ++ intros message Hmessage. rewrite Hmessage in Hprobe.
              discriminate Hprobe.
        -- destruct Hmain as (e & w' & Hrun & _).
           exfalso. apply Hquiet. eauto.
    + intros Hquiet.
      destruct (activate_body_run w)
        as [Hthrow | (w1 & lines & n & Hrun & Hcon & Hin)]; [contradiction |].
      unfold Activator.activateBasicExercises, try_catch. rewrite Hrun.
      cbn [fst snd]. split; [reflexivity |].
      exists n. unfold output_since. rewrite Hcon, since_app. exact Hin.
Qed.

(** Four runs: without the access key; with a URL the library refuses; with
    the probe answered with an error; and with every call answered, on a
    half-filled table for the loader. *)
Lemma exit_status_of_scripts_witness :
  (exit_status (fst (Loader.script Sample.no_key Sample.unreachable)) = Some 1 /\
   exit_status (fst (Activator.script Sample.no_key Sample.unreachable)) = Some 1) /\
  (exit_status
     (fst (Loader.script
             Sample.env
             (Sample.world_without_client Sample.populated (Some Sample.file) [])))
   = Some 1 /\
   exit_status
     (fst (Activator.script
             Sample.env
             (Sample.world_without_client Sample.populated (Some Sample.file) [])))
   = Some 1 /\
   output_since
     (Sample.world_without_client Sample.populated (Some Sample.file) [])
     (snd (Loader.script
             Sample.env
             (Sample.world_without_client Sample.populated (Some Sample.file) [])))
   = [] /\
   output_since
     (Sample.world_without_client Sample.populated (Some Sample.file) [])
     (snd (Activator.script
             Sample.env
             (Sample.world_without_client Sample.populated (Some Sample.file) [])))
   = []) /\
  (exit_status (fst (Loader.script Sample.env Sample.unreachable)) = Some 0 /\
   (loader_summary
      (output_since Sample.unreachable
                    (snd (Loader.script Sample.env Sample.unreachable)))
    <-> failed (next_fault Sample.unreachable) = false) /\
   (forall message,
       next_fault Sample.unreachable = StoreError message ->
       output_since Sample.unreachable
                    (snd (Loader.script Sample.env Sample.unreachable))
       = [(Stdout, PopulateStart); (Stdout, TestingConnection);
          (Stderr, CannotConnect message)])) /\
  (exit_status
     (fst (Activator.script Sample.env
                            (Sample.world Sample.populated (Some Sample.file) [])))
   = Some 0 /\
   activator_summary
     (output_since
        (Sample.world Sample.populated (Some Sample.file) [])
        (snd (Activator.script
                Sample.env
                (Sample.world Sample.populated (Some Sample.file) []))))).
Proof.
  split; [| split; [| split]].
  - apply (proj1 (exit_status_of_scripts Sample.no_key Sample.unreachable)).
    right. left. reflexivity.
  - apply (proj1 (proj2 (exit_status_of_scripts
                           Sample.env
                           (Sample.world_without_client
                              Sample.populated (Some Sample.file) []))
                        sample_env_configured)
                 "Invalid URL").
    reflexivity.
  - apply (proj2 (proj2 (exit_status_of_scripts Sample.env Sample.unreachable)
                        sample_env_configured)
                 eq_refl).
    intros (e & w1 & Hthrow). discriminate Hthrow.
  - apply (proj2 (proj2 (exit_status_of_scripts
                           Sample.env
                           (Sample.world Sample.populated (Some Sample.file) []))
                        sample_env_configured)
                 eq_refl).
    intros (e & w1 & Hthrow). vm_compute in Hthrow. discriminate Hthrow.
Defined.

(** ** The name search is a case-insensitive substring test *)

Section NameSearch.

Lemma like_percent_step :
  forall p s,
    Sql.like (String "%" p) s
    = Sql.like p s ||
      match s with
      | EmptyString => false
      | String _ s' => Sql.like (String "%" p) s'
      end.
Proof.
  intros p [| c s]; reflexivity.
Qed.

Lemma like_percent :
  forall p s,
    Sql.like (String "%" p) s = true <->
    exists a b, s = (a ++ b)%string /\ Sql.like p b = true.
Proof.
  intros p s. induction s as [| c s IH]; rewrite like_percent_step.
  - rewrite orb_false_r. split.
    + intros H. now exists EmptyString, EmptyString.
    + intros (a & b & Hs & Hb). destruct a; [| discriminate].
      cbn in Hs. now subst b.
  - rewrite orb_true_iff, IH. split.
    + intros [H | (a & b & Hs & Hb)].
      * now exists EmptyString, (String c s).
      * exists (String c a), b. cbn. now rewrite Hs.
    + intros (a & b & Hs & Hb). destruct a as [| d a]; cbn in Hs.
      * left. now subst b.
      * right. injection Hs as _ Hs. now exists a, b.
Qed.

Lemma like_plain_prefix :
  forall p s,
    Sql.plain p = true ->
    (Sql.like (p ++ "%") s = true <-> exists b, s = (p ++ b)%string).
Proof.
  induction p as [| c p IH]; intros s Hplain.
  - cbn [String.append]. rewrite like_percent. split.
    + intros _. now exists s.
    + intros _. exists s, EmptyString. split; [| reflexivity].
      clear. induction s as [| c s IH]; cbn; congruence.
  - cbn in Hplain. apply andb_prop in Hplain as [Hc Hp].
    apply andb_prop in Hc as [Hpercent Hunder].
    apply negb_true_iff in Hpercent, Hunder.
    cbn [String.append Sql.like]. rewrite Hpercent, Hunder. cbn [orb].
    destruct s as [| d s].
    + split; [discriminate | intros [b Hb]; discriminate].
    + rewrite andb_true_iff, (IH s Hp), Ascii.eqb_eq. split.
      * intros [-> [b ->]]. now exists b.
      * intros [b Hb]. injection Hb as -> ->. eauto.
Qed.

Lemma like_contains :
  forall p s,
    Sql.plain p = true ->
    (Sql.like ("%" ++ p ++ "%") s = true <->
     exists a b, s = (a ++ p ++ b)%string).
Proof.
  intros p s Hplain. cbn [String.append]. rewrite like_percent. split.
  - intros (a & b & Hs & Hb). apply like_plain_prefix in Hb as [b' ->]; eauto.
  - intros (a & b & Hs). exists a, (p ++ b)%string. split; [assumption |].
    apply like_plain_prefix; eauto.
Qed.

Lemma lower_app :
  forall a b, Sql.lower (a ++ b) = (Sql.lower a ++ Sql.lower b)%string.
Proof.
  induction a as [| c a IH]; intros b; cbn; [reflexivity | now rewrite IH].
Qed.

(** For a name without wildcards, the search pattern [%name%] selects the
    rows whose name contains the name, letter case aside. *)
Lemma ilike_is_substring :
  forall exerciseName s,
    Sql.plain (Sql.lower exerciseName) = true ->
    (Sql.ilike ("%" ++ exerciseName ++ "%") s = true <->
     exists a b, Sql.lower s = (a ++ Sql.lower exerciseName ++ b)%string).
Proof.
  intros exerciseName s Hplain. unfold Sql.ilike.
  rewrite !lower_app. change (Sql.lower "%") with "%"%string.
  now apply like_contains.
Qed.

(** No name of the fixed list holds a wildcard. *)
Lemma basic_exercises_plain :
  forallb (fun exerciseName => Sql.plain (Sql.lower exerciseName))
          Activator.BASIC_EXERCISES = true.
Proof.
  reflexivity.
Qed.

End NameSearch.

(** ** A first run fills the table *)

Section FirstRun.

Import Trace.

Lemma all_answered_inserted_rows :
  forall tr,
    forallb is_insert tr = true ->
    (forall j, j < length tr -> nth j (map snd tr) NoFault = NoFault) ->
    inserted_rows tr = concat (map batch_of tr).
Proof.
  induction tr as [| entry tr IH]; intros Hins Hanswers; [reflexivity |].
  cbn in Hins. apply andb_prop in Hins as [Hentry Hins].
  rewrite inserted_rows_cons, Hentry. unfold succeeded.
  rewrite (Hanswers 0 ltac:(cbn; lia) : snd entry = NoFault). cbn.
  f_equal. apply IH; [assumption |].
  intros j Hj. apply (Hanswers (S j)). cbn. lia.
Qed.

(** A run of the loader with its client created, against a store that
    answers every call, with a readable file, ends normally with every record's identifier in the
    table: the state the idempotence claim starts from. *)
Lemma first_run_stores_every_record :
  forall env w exs,
    config_missing env = false ->
    client_refusal env w = None ->
    exercises_json w = Some exs ->
    faults w = [] ->
    fst (Loader.script env w) = Ok tt /\
    forall ex, In ex exs ->
               In (exerciseId ex) (stored_ids (table (snd (Loader.script env w)))).
Proof.
  intros env w exs Hconfig Hclient Hjson Hfaults.
  rewrite loader_script_configured by assumption.
  assert (Hprobe : failed (next_fault w) = false).
  { unfold next_fault. now rewrite Hfaults. }
  pose proof (main_body_connected w Hprobe) as Hmain. cbv zeta in Hmain.
  rewrite Hjson, Hfaults in Hmain. cbn [nth known_ids] in Hmain.
  destruct Hmain
    as (tr & w' & lines & Hrun & _ & Hins & Hrows & _ & _ & _ & _ & Htable & Hanswers).
  rewrite (main_returned _ Hrun). cbn [fst snd]. split; [reflexivity |].
  intros ex Hin. rewrite Htable, all_answered_inserted_rows, Hrows by assumption.
  apply in_or_app.
  destruct (Js.includes (stored_ids (table w)) (exerciseId ex)) eqn:Hknown.
  - left. now apply includes_In.
  - right. apply in_map_iff. exists (mapExerciseToDatabase ex).
    split; [reflexivity |]. unfold Loader.new_exercises.
    apply filter_In. split; [now apply in_map |].
    cbn. now rewrite Hknown.
Qed.

(** On the sample file: the first run leaves [Sample.populated] behind. *)
Example first_run_on_sample :
  table (snd (Loader.script Sample.env (Sample.world [] (Some Sample.file) [])))
  = Sample.populated.
Proof.
  reflexivity.
Qed.

End FirstRun.


(** * Further properties *)

(** ** Invariants carried through the monad *)

Section Keeps.

Variable R : World -> World -> Prop.
Hypothesis R_refl : forall w, R w w.
Hypothesis R_trans : forall w1 w2 w3, R w1 w2 -> R w2 w3 -> R w1 w3.
Hypothesis R_line : forall s l w, R w (add_line s l w).
Hypothesis R_pause : forall ms w, R w (add_pause ms w).

Lemma keeps_ret : forall (A : Type) (a : A), keeps R (ret a).
Proof.
  intros A a w r w' H. injection H as _ <-. apply R_refl.
Qed.

Lemma keeps_throw : forall (A : Type) (e : string), keeps R (@throw A e).
Proof.
  intros A e w r w' H. injection H as _ <-. apply R_refl.
Qed.

Lemma keeps_exit : forall (A : Type) (code : nat), keeps R (@exit A code).
Proof.
  intros A code w r w' H. injection H as _ <-. apply R_refl.
Qed.

Lemma keeps_diverge : forall A : Type, keeps R (@diverge A).
Proof.
  intros A w r w' H. injection H as _ <-. apply R_refl.
Qed.

Lemma keeps_print : forall s l, keeps R (print s l).
Proof.
  intros s l w r w' H. injection H as _ <-. apply R_line.
Qed.

Lemma keeps_sleep : forall ms, keeps R (sleep ms).
Proof.
  intros ms w r w' H. injection H as _ <-. apply R_pause.
Qed.

Lemma keeps_bind :
  forall (A B : Type) (m : M A) (k : A -> M B),
    keeps R m -> (forall a, keeps R (k a)) -> keeps R (bind m k).
Proof.
  intros A B m k Hm Hk w r w' H. unfold bind in H.
  destruct (m w) as [[a | e | code |] w1] eqn:Hrun.
  - apply R_trans with w1; [now apply (Hm w (Ok a)) | now apply (Hk a w1 r)].
  - injection H as _ <-. now apply (Hm w (Throw e)).
  - injection H as _ <-. now apply (Hm w (Exit code)).
  - injection H as _ <-. now apply (Hm w Diverge).
Qed.

Lemma keeps_try_catch :
  forall (A : Type) (m : M A) (handler : string -> M A),
    keeps R m -> (forall e, keeps R (handler e)) -> keeps R (try_catch m handler).
Proof.
  intros A m handler Hm Hh w r w' H. unfold try_catch in H.
  destruct (m w) as [[a | e | code |] w1] eqn:Hrun.
  - injection H as _ <-. now apply (Hm w (Ok a)).
  - apply R_trans with w1; [now apply (Hm w (Throw e)) | now apply (Hh e w1 r)].
  - injection H as _ <-. now apply (Hm w (Exit code)).
  - injection H as _ <-. now apply (Hm w Diverge).
Qed.

Lemma keeps_createClient :
  forall url key, keeps R (createClient url key).
Proof.
  intros url key w r w' H. unfold createClient in H.
  destruct (client_error w url key); injection H as _ <-; apply R_refl.
Qed.

Lemma keeps_read_exercises_json : keeps R read_exercises_json.
Proof.
  intros w r w' H. unfold read_exercises_json in H.
  destruct (exercises_json w); injection H as _ <-; apply R_refl.
Qed.

End Keeps.

Ltac keeps_steps refl trans line pause :=
  repeat first
    [ apply (keeps_print _ line)
    | apply (keeps_sleep _ pause)
    | apply (keeps_ret _ refl)
    | apply (keeps_throw _ refl)
    | apply (keeps_exit _ refl)
    | apply (keeps_diverge _ refl)
    | apply (keeps_read_exercises_json _ refl)
    | apply (keeps_bind trans)
    | apply (keeps_try_catch trans)
    | match goal with
      | |- forall _, _ => intro
      | |- keeps _ (match ?x with _ => _ end) => destruct x
      end ].

(** ** The loader only appends *)

Section LoaderInvariant.

Lemma Forall_firstn :
  forall (A : Type) (P : A -> Prop) (n : nat) (xs : list A),
    Forall P xs -> Forall P (firstn n xs).
Proof.
  intros A P n xs H. revert n.
  induction H as [| x xs Hx Hxs IH]; intros [| n]; cbn; auto.
Qed.

Lemma Forall_skipn :
  forall (A : Type) (P : A -> Prop) (n : nat) (xs : list A),
    Forall P xs -> Forall P (skipn n xs).
Proof.
  intros A P n xs H. revert n.
  induction H as [| x xs Hx Hxs IH]; intros [| n]; cbn; auto.
Qed.

Lemma Forall_slice :
  forall (A : Type) (P : A -> Prop) (xs : list A) (from to : nat),
    Forall P xs -> Forall P (Js.slice xs from to).
Proof.
  intros A P xs from to H. unfold Js.slice.
  now apply Forall_firstn, Forall_skipn.
Qed.

Lemma slice_nonempty :
  forall (A : Type) (xs : list A) (i b : nat),
    0 < b -> i < length xs -> Js.slice xs i (i + b) <> [].
Proof.
  intros A xs i b Hb Hi Hnil. apply (f_equal (@length A)) in Hnil.
  unfold Js.slice in Hnil. rewrite length_firstn, length_skipn in Hnil.
  cbn in Hnil. lia.
Qed.

Lemma appended_refl : forall P t, appended P t t.
Proof.
  intros P t. exists []. now rewrite app_nil_r.
Qed.

Lemma appended_trans :
  forall P t1 t2 t3, appended P t1 t2 -> appended P t2 t3 -> appended P t1 t3.
Proof.
  intros P t1 t2 t3 (a & -> & Ha) (b & -> & Hb).
  exists (a ++ b). rewrite app_assoc. split; [reflexivity |].
  apply Forall_app. now split.
Qed.

Lemma appended_insert :
  forall (P : DatabaseExercise -> Prop) batch t,
    Forall P batch -> appended P t (Sql.insert batch t).
Proof.
  intros P batch t H. exists (Sql.fresh_rows (Sql.next_id t) batch).
  split; [reflexivity |].
  generalize (Sql.next_id t).
  induction H as [| c batch Hc Hbatch IH]; intros next; cbn; auto.
Qed.

Lemma loader_step_refl : forall w, loader_step w w.
Proof.
  intros w. split; [apply appended_refl |].
  split; exists []; now rewrite app_nil_r.
Qed.

Lemma loader_step_trans :
  forall w1 w2 w3, loader_step w1 w2 -> loader_step w2 w3 -> loader_step w1 w3.
Proof.
  intros w1 w2 w3 (Ht & (tr & Hc & Htr) & (ls & Hl))
         (Ht' & (tr' & Hc' & Htr') & (ls' & Hl')).
  split; [eapply appended_trans; eassumption |]. split.
  - exists (tr ++ tr'). rewrite Hc', Hc, app_assoc. split; [reflexivity |].
    apply Forall_app. now split.
  - exists (ls ++ ls'). now rewrite Hl', Hl, app_assoc.
Qed.

Lemma loader_step_line : forall s l w, loader_step w (add_line s l w).
Proof.
  intros s l w. split; [apply appended_refl |]. split.
  - exists []. cbn. now rewrite app_nil_r.
  - now exists [(s, l)].
Qed.

Lemma loader_step_pause : forall ms w, loader_step w (add_pause ms w).
Proof.
  intros ms w. exact (loader_step_refl w).
Qed.

(** A call that leaves the table alone keeps the invariant when it is one
    of the loader's. *)
Lemma keeps_loader_select :
  forall (A : Type) (c : call) (read : list Row -> A),
    (forall f, loader_call (c, f)) ->
    keeps loader_step (request c (fun t => (read t, t))).
Proof.
  intros A c read Hc w r w' H. unfold request in H.
  destruct (next_fault w) eqn:Hf; cbn in H; injection H as _ <-;
    (split; [apply appended_refl |]);
    (split; [| exists []; cbn; now rewrite app_nil_r]);
    eexists; (split; [reflexivity |]); (constructor; [apply Hc | constructor]).
Qed.

Lemma keeps_loader_insert :
  forall batch,
    batch <> [] -> Forall freshly_loaded batch ->
    keeps loader_step (Loader.insert_batch batch).
Proof.
  intros batch Hne Hbatch w r w' H. unfold Loader.insert_batch, request in H.
  assert (Hcall : forall f, loader_call (Insert batch "exercise_id", f)).
  { intros f. right. right. exists batch. now split. }
  destruct (next_fault w) eqn:Hf; cbn in H; injection H as _ <-;
    (split; [first [now apply appended_insert | apply appended_refl] |]);
    (split; [| exists []; cbn; now rewrite app_nil_r]);
    eexists; (split; [reflexivity |]); (constructor; [apply Hcall | constructor]).
Qed.

Lemma keeps_attempt_batch :
  forall batchNo batch ins err,
    batch <> [] -> Forall freshly_loaded batch ->
    keeps loader_step (Loader.attempt_batch batchNo batch ins err).
Proof.
  intros batchNo batch ins err Hne Hbatch. unfold Loader.attempt_batch.
  apply (keeps_try_catch loader_step_trans).
  - apply (keeps_bind loader_step_trans); [now apply keeps_loader_insert |].
    keeps_steps loader_step_refl loader_step_trans loader_step_line
                loader_step_pause.
  - keeps_steps loader_step_refl loader_step_trans loader_step_line
                loader_step_pause.
Qed.

Lemma keeps_insert_loop :
  forall fuel exs B i ins err,
    0 < B -> Forall freshly_loaded exs ->
    keeps loader_step (Loader.insert_loop fuel exs B i ins err).
Proof.
  induction fuel as [| fuel IH]; intros exs B i ins err HB Hexs;
    cbn [Loader.insert_loop];
    destruct (Nat.ltb_spec i (length exs)) as [Hlt | Hge];
    try solve [apply (keeps_ret _ loader_step_refl)
              | apply (keeps_diverge _ loader_step_refl)].
  apply (keeps_bind loader_step_trans).
  - apply keeps_attempt_batch;
      [now apply slice_nonempty | now apply Forall_slice].
  - intros counts. apply (keeps_bind loader_step_trans).
    + apply (keeps_sleep _ loader_step_pause).
    + intros _. now apply IH.
Qed.

Lemma new_exercises_freshly_loaded :
  forall existing exs,
    Forall freshly_loaded
           (Loader.new_exercises existing (map mapExerciseToDatabase exs)).
Proof.
  intros existing exs. apply Forall_forall. intros c Hin.
  unfold Loader.new_exercises in Hin. apply filter_In in Hin as [Hin _].
  apply in_map_iff in Hin as (ex & <- & _). split; reflexivity.
Qed.

Lemma keeps_main_body : keeps loader_step Loader.main_body.
Proof.
  unfold Loader.main_body.
  apply (keeps_bind loader_step_trans); [apply (keeps_print _ loader_step_line) |].
  intros _.
  apply (keeps_bind loader_step_trans); [apply (keeps_print _ loader_step_line) |].
  intros _.
  apply (keeps_bind loader_step_trans).
  { apply keeps_loader_select. intros f. now left. }
  intros probe. destruct (error probe).
  { apply (keeps_print _ loader_step_line). }
  do 2 (apply (keeps_bind loader_step_trans);
        [apply (keeps_print _ loader_step_line) | intros _]).
  apply (keeps_bind loader_step_trans).
  { unfold Loader.checkExistingExercises.
    apply (keeps_try_catch loader_step_trans).
    - apply (keeps_bind loader_step_trans).
      + apply keeps_loader_select. intros f. right. now left.
      + keeps_steps loader_step_refl loader_step_trans loader_step_line
                    loader_step_pause.
    - keeps_steps loader_step_refl loader_step_trans loader_step_line
                  loader_step_pause. }
  intros existing.
  apply (keeps_bind loader_step_trans); [apply (keeps_print _ loader_step_line) |].
  intros _.
  apply (keeps_bind loader_step_trans).
  { unfold Loader.loadExercisesFromJSON.
    keeps_steps loader_step_refl loader_step_trans loader_step_line
                loader_step_pause. }
  intros exs.
  do 3 (apply (keeps_bind loader_step_trans);
        [apply (keeps_print _ loader_step_line) | intros _]).
  destruct (length _ =? 0).
  { apply (keeps_print _ loader_step_line). }
  apply (keeps_bind loader_step_trans).
  { unfold Loader.insertExercisesInBatches.
    apply (keeps_bind loader_step_trans);
      [apply (keeps_print _ loader_step_line) | intros _].
    apply keeps_insert_loop; [lia | apply new_exercises_freshly_loaded]. }
  intros counts.
  keeps_steps loader_step_refl loader_step_trans loader_step_line
              loader_step_pause.
Qed.

Lemma keeps_loader_script : forall env, keeps loader_step (Loader.script env).
Proof.
  intros env. unfold Loader.script. cbv zeta.
  apply (keeps_bind loader_step_trans).
  - keeps_steps loader_step_refl loader_step_trans loader_step_line
                loader_step_pause.
  - intros _. apply (keeps_bind loader_step_trans);
      [apply (keeps_createClient _ loader_step_refl) | intros _].
    unfold Loader.main.
    apply (keeps_try_catch loader_step_trans); [apply keeps_main_body |].
    keeps_steps loader_step_refl loader_step_trans loader_step_line
                loader_step_pause.
Qed.

End LoaderInvariant.

(** X1.  Whatever the configuration, the file and the answers of the store,
    a run of the loader leaves every row that was in the table where and as
    it was and only adds rows at the end, each of them inactive and with the
    image path [gifs/<identifier>.gif] of its own identifier; the calls it
    sends are the probe, the identifier query and inserts of non-empty
    batches, never an update. *)
Theorem loader_only_appends_inactive_rows :
  forall (env : Env) (w : World),
    (exists added,
        table (snd (Loader.script env w)) = table w ++ added /\
        Forall (fun r =>
                  is_active (columns r) = false /\
                  gif_path (columns r)
                  = ("gifs/" ++ exercise_id (columns r) ++ ".gif")%string)
               added) /\
    Forall loader_call (calls_since w (snd (Loader.script env w))) /\
    existsb Trace.is_update (calls_since w (snd (Loader.script env w))) = false.
Proof.
  intros env w.
  destruct (Loader.script env w) as [r w'] eqn:Hrun. cbn [snd].
  destruct (keeps_loader_script env w Hrun) as (Htable & (tr & Hcalls & Htr) & _).
  split; [exact Htable |].
  unfold calls_since. rewrite Hcalls, since_app. split; [exact Htr |].
  clear Hcalls. induction Htr as [| [c f] tr Hc Htr IH]; [reflexivity |].
  cbn. rewrite IH, orb_false_r.
  destruct Hc as [Hc | [Hc | (batch & Hc & _)]]; cbn in Hc; now subst c.
Qed.

(** ** The activator only activates *)

Section ActivatorInvariant.

Lemma set_active_twice :
  forall r, set_active true (set_active true r) = set_active true r.
Proof.
  reflexivity.
Qed.

Lemma activated_only_refl : forall t, activated_only t t.
Proof.
  induction t as [| r t IH]; constructor; auto.
Qed.

Lemma activated_only_trans :
  forall t1 t2 t3,
    activated_only t1 t2 -> activated_only t2 t3 -> activated_only t1 t3.
Proof.
  intros t1 t2 t3 H12. revert t3.
  induction H12 as [| r1 r2 t1 t2 Hr H12 IH]; intros t3 H23;
    inversion H23 as [| r2' r3 t2' t3' Hr' H23' ]; subst; constructor.
  - destruct Hr as [-> | ->], Hr' as [-> | ->]; auto.
  - now apply IH.
Qed.

Lemma activated_only_update :
  forall fs t, activated_only t (Sql.update true fs t).
Proof.
  intros fs t. unfold Sql.update.
  induction t as [| r t IH]; cbn; constructor; [| exact IH].
  destruct (Sql.selected fs r); auto.
Qed.

Lemma activated_only_inactive :
  forall t t',
    activated_only t t' ->
    length (inactive_rows t') <= length (inactive_rows t).
Proof.
  intros t t' H. unfold inactive_rows.
  induction H as [| r r' t t' Hr H IH]; [reflexivity |].
  cbn [filter]. destruct Hr as [-> | ->].
  - destruct (negb (is_active (columns r))); cbn [length]; lia.
  - cbn. destruct (negb (is_active (columns r))); cbn [length]; lia.
Qed.

Lemma activator_step_refl : forall w, activator_step w w.
Proof.
  intros w. split; [apply activated_only_refl |].
  split; [exists []; now rewrite app_nil_r |].
  split; [exists []; now rewrite app_nil_r | apply incl_refl].
Qed.

Lemma activator_step_trans :
  forall w1 w2 w3,
    activator_step w1 w2 -> activator_step w2 w3 -> activator_step w1 w3.
Proof.
  intros w1 w2 w3 (Ht & (tr & Hc & Htr & Ha) & (ls & Hl) & Hf)
         (Ht' & (tr' & Hc' & Htr' & Ha') & (ls' & Hl') & Hf').
  split; [eapply activated_only_trans; eassumption |]. split; [| split].
  - exists (tr ++ tr'). rewrite Hc', Hc, app_assoc. split; [reflexivity |].
    split; apply Forall_app; split; try assumption.
    eapply Forall_impl; [| exact Ha'].
    intros entry [Hentry | Hentry]; [now left | right; now apply Hf].
  - exists (ls ++ ls'). now rewrite Hl', Hl, app_assoc.
  - eapply incl_tran; eassumption.
Qed.

Lemma activator_step_line : forall s l w, activator_step w (add_line s l w).
Proof.
  intros s l w. split; [apply activated_only_refl |]. split; [| split].
  - exists []. cbn. now rewrite app_nil_r.
  - now exists [(s, l)].
  - apply incl_refl.
Qed.

Lemma activator_step_pause : forall ms w, activator_step w (add_pause ms w).
Proof.
  intros ms w. exact (activator_step_refl w).
Qed.

Lemma keeps_activator_request :
  forall (A : Type) (c : call) (exec : list Row -> A * list Row),
    (forall f, activator_call (c, f)) ->
    (forall t, activated_only t (snd (exec t))) ->
    keeps activator_step (request c exec).
Proof.
  intros A c exec Hc Hexec w r w' H. unfold request in H.
  pose proof (Hexec (table w)) as Ht.
  assert (Hanswer : answered_from (faults w) (c, next_fault w)).
  { unfold answered_from, next_fault. cbn.
    destruct (faults w); [now left | right; now left]. }
  assert (Hrest : incl (tl (faults w)) (faults w)).
  { destruct (faults w); [apply incl_refl | now apply incl_tl, incl_refl]. }
  destruct (next_fault w) eqn:Hf; cbn in H;
    try (destruct (exec (table w)) as [a t] eqn:Hrun; cbn in Ht);
    injection H as _ <-;
    (split; [first [exact Ht | apply activated_only_refl] |]);
    (split; [| split; [exists []; cbn; now rewrite app_nil_r | exact Hrest]]);
    eexists; (split; [reflexivity |]);
    (split; constructor; first [apply Hc | exact Hanswer | constructor]).
Qed.

Lemma keeps_activate_one :
  forall exerciseName, keeps activator_step (Activator.activate_one exerciseName).
Proof.
  intros exerciseName. unfold Activator.activate_one.
  apply (keeps_bind activator_step_trans);
    [apply (keeps_print _ activator_step_line) | intros _].
  apply (keeps_bind activator_step_trans).
  { apply keeps_activator_request.
    - intros f. left. cbn. eauto.
    - intros t. apply activated_only_refl. }
  intros found. destruct (error found).
  { apply (keeps_print _ activator_step_line). }
  destruct (data found) as [[| exercise hits] |];
    try apply (keeps_print _ activator_step_line).
  apply (keeps_bind activator_step_trans).
  { apply keeps_activator_request.
    - intros f. right. cbn. eauto.
    - intros t. apply activated_only_update. }
  intros updated. destruct (error updated);
    apply (keeps_print _ activator_step_line).
Qed.

Lemma keeps_for_each :
  forall names, keeps activator_step (Activator.for_each names Activator.activate_one).
Proof.
  induction names as [| exerciseName rest IH]; cbn [Activator.for_each].
  - apply (keeps_ret _ activator_step_refl).
  - apply (keeps_bind activator_step_trans);
      [apply keeps_activate_one | intros _; exact IH].
Qed.

Lemma keeps_activate_body : keeps activator_step Activator.activate_body.
Proof.
  unfold Activator.activate_body.
  apply (keeps_bind activator_step_trans);
    [apply (keeps_print _ activator_step_line) | intros _].
  apply (keeps_bind activator_step_trans); [apply keeps_for_each | intros _].
  apply (keeps_bind activator_step_trans).
  { apply keeps_activator_request.
    - intros f. left. cbn. eauto.
    - intros t. apply activated_only_refl. }
  intros counted.
  keeps_steps activator_step_refl activator_step_trans activator_step_line
              activator_step_pause.
Qed.

Lemma keeps_activator_script :
  forall env, keeps activator_step (Activator.script env).
Proof.
  intros env. unfold Activator.script. cbv zeta.
  apply (keeps_bind activator_step_trans).
  { keeps_steps activator_step_refl activator_step_trans activator_step_line
                activator_step_pause. }
  intros _. apply (keeps_bind activator_step_trans);
    [apply (keeps_createClient _ activator_step_refl) | intros _].
  unfold Activator.activateBasicExercises.
  apply (keeps_try_catch activator_step_trans);
    [apply keeps_activate_body | intros e; apply (keeps_print _ activator_step_line)].
Qed.

End ActivatorInvariant.

(** X2.  Whatever the configuration and the answers of the store, a run of
    the activator changes nothing in the table but active flags, and those
    only from false to true: the rows keep their number, order, keys and
    columns, no row becomes inactive, and the number of inactive rows does
    not grow.  Its calls are selects and updates that set [is_active] to
    true on the rows of one [id]; it never inserts. *)
Theorem activator_only_activates :
  forall (env : Env) (w : World),
    Forall2 (fun r r' => r' = r \/ r' = set_active true r)
            (table w) (table (snd (Activator.script env w))) /\
    length (inactive_rows (table (snd (Activator.script env w))))
    <= length (inactive_rows (table w)) /\
    Forall activator_call (calls_since w (snd (Activator.script env w))) /\
    existsb Trace.is_insert (calls_since w (snd (Activator.script env w))) = false.
Proof.
  intros env w.
  destruct (Activator.script env w) as [r w'] eqn:Hrun. cbn [snd].
  destruct (keeps_activator_script env w Hrun)
    as (Htable & (tr & Hcalls & Htr & _) & _).
  split; [exact Htable |]. split; [now apply activated_only_inactive |].
  unfold calls_since. rewrite Hcalls, since_app. split; [exact Htr |].
  clear Hcalls. induction Htr as [| [c f] tr Hc Htr IH]; [reflexivity |].
  cbn. rewrite IH, orb_false_r.
  destruct Hc as [(cols & fs & limit & Hc) | (k & Hc)]; cbn in Hc; now subst c.
Qed.

(** ** The batch loop, call by call *)

Section BatchShape.

Import Trace.

Lemma attempt_batch_line :
  forall batchNo batch ins err w,
  exists counts w',
    Loader.attempt_batch batchNo batch ins err w = (Ok counts, w') /\
    calls w' = calls w ++ [(Insert batch "exercise_id", next_fault w)] /\
    console w'
    = console w ++ [batch_line batchNo (Insert batch "exercise_id", next_fault w)] /\
    slept w' = slept w.
Proof.
  intros batchNo batch ins err w.
  unfold Loader.attempt_batch, try_catch, bind, Loader.insert_batch, request,
    batch_line.
  destruct (next_fault w) eqn:Hf; cbn; do 2 eexists; repeat split.
Qed.

Lemma insert_loop_shape :
  forall fuel exs B i ins err w,
    0 < B -> length exs - i <= fuel ->
    exists counts tr w',
      Loader.insert_loop fuel exs B i ins err w = (Ok counts, w') /\
      calls w' = calls w ++ tr /\
      (forall j, j < length tr ->
                 nth j (map batch_of tr) []
                 = Js.slice exs (i + j * B) (i + j * B + B)) /\
      console w' = console w ++ batch_lines (i / B + 1) tr /\
      slept w' = slept w + 100 * length tr.
Proof.
  induction fuel as [| fuel IH]; intros exs B i ins err w HB Hfuel;
    cbn [Loader.insert_loop];
    destruct (Nat.ltb_spec i (length exs)) as [Hlt | Hge]; try lia.
  - exists (ins, err), [], w. cbn. rewrite !app_nil_r.
    repeat split; [intros j Hj; lia | lia].
  - destruct (attempt_batch_line (i / B + 1) (Js.slice exs i (i + B)) ins err w)
      as (counts & w1 & Hrun & Hcalls & Hcon & Hslept).
    rewrite (@bind_ok _ _ _ _ _ _ _ Hrun). unfold sleep, bind.
    destruct (IH exs B (i + B) (fst counts) (snd counts) (add_pause 100 w1) HB)
      as (counts' & tr & w' & Hloop & Hcalls' & Hbatches & Hcon' & Hslept');
      [lia |].
    exists counts', ((Insert (Js.slice exs i (i + B)) "exercise_id", next_fault w) :: tr), w'.
    split; [exact Hloop |]. split; [| split; [| split]].
    + rewrite Hcalls'. cbn. rewrite Hcalls, <- app_assoc. reflexivity.
    + intros [| j] Hj.
      * cbn. now rewrite Nat.add_0_r.
      * cbn [map nth]. cbn in Hj. rewrite Hbatches by lia.
        f_equal; lia.
    + rewrite Hcon'. cbn [add_pause console batch_lines]. rewrite Hcon.
      rewrite <- app_assoc. cbn [app]. do 3 f_equal.
      replace (i + B) with (i + 1 * B) by lia.
      rewrite Nat.div_add by lia. lia.
    + rewrite Hslept'. cbn [add_pause slept length]. rewrite Hslept. lia.
  - exists (ins, err), [], w. cbn. rewrite !app_nil_r.
    repeat split; [intros j Hj; lia | lia].
Qed.

Lemma slice_full_length :
  forall (A : Type) (xs : list A) (from b : nat),
    length (Js.slice xs from (from + b)) = Nat.min b (length xs - from).
Proof.
  intros A xs from b. unfold Js.slice.
  rewrite length_firstn, length_skipn. f_equal. lia.
Qed.

Lemma rows_where_total :
  forall tr,
    forallb is_insert tr = true ->
    rows_where succeeded tr + rows_where failed tr
    = length (concat (map batch_of tr)).
Proof.
  induction tr as [| entry tr IH]; intros Hins; [reflexivity |].
  cbn in Hins. apply andb_prop in Hins as [Hentry Hins].
  rewrite !rows_where_cons, Hentry. cbn [map concat].
  rewrite length_app, <- (IH Hins). unfold succeeded.
  destruct (failed (snd entry)); cbn; lia.
Qed.

Lemma ceil_div_last :
  forall n b j, 0 < b -> j < ceil_div n b -> j * b < n.
Proof.
  intros n b j Hb Hj.
  destruct (Nat.le_gt_cases n (j * b)) as [Hle | Hlt]; [| exact Hlt].
  apply (ceil_div_is_ceiling n j Hb) in Hle. lia.
Qed.

Lemma ceil_div_full :
  forall n b j, 0 < b -> S j < ceil_div n b -> j * b + b <= n.
Proof.
  intros n b j Hb Hj.
  pose proof (@ceil_div_last n b (S j) Hb Hj) as H. cbn in H. lia.
Qed.

End BatchShape.

Lemma insertExercisesInBatches_shape :
  forall fuel exs B w,
    0 < B -> length exs <= fuel ->
    exists tr w',
      Loader.insertExercisesInBatches fuel exs B w
      = (Ok (Trace.rows_where Trace.succeeded tr, Trace.rows_where failed tr), w') /\
      loop_run exs B 0 w w' tr /\
      (forall j, j < length tr ->
                 nth j (Trace.insert_batches tr) []
                 = firstn B (skipn (j * B) exs)) /\
      console w'
      = console w ++ (Stdout, InsertStart (length exs) B) :: batch_lines 1 tr /\
      slept w' = slept w + 100 * length tr.
Proof.
  intros fuel exs B w HB Hfuel.
  destruct (insertExercisesInBatches_run exs w HB Hfuel) as (tr & w' & Hrun & Htr).
  exists tr, w'. split; [exact Hrun |]. split; [exact Htr |].
  unfold Loader.insertExercisesInBatches, log in Hrun. rewrite print_then in Hrun.
  destruct (@insert_loop_shape fuel exs B 0 0 0
              (add_line Stdout (InsertStart (length exs) B) w) HB ltac:(lia))
    as (counts & tr' & w'' & Hrun' & Hcalls' & Hbatches & Hcon & Hslept).
  rewrite Hrun in Hrun'. injection Hrun' as _ <-.
  assert (tr' = tr) as ->.
  { apply (app_inv_head (calls w)). cbn in Hcalls'. rewrite <- Hcalls'.
    apply (run_calls Htr). }
  rewrite (all_inserts_batches _ (run_inserts Htr)).
  split; [| split].
  - intros j Hj. rewrite (Hbatches j Hj). unfold Js.slice. cbn [Nat.add].
    f_equal. lia.
  - rewrite Hcon. cbn [add_line console]. rewrite <- app_assoc.
    rewrite Nat.Div0.div_0_l. reflexivity.
  - exact Hslept.
Qed.

(** X3.  For a batch size [B > 0] the [j]-th insert call carries the rows
    [j*B .. j*B + B - 1] of the input: no call is empty, and every call but
    the last carries exactly [B] rows. *)
Theorem insertExercisesInBatches_batch_contents :
  forall (fuel : nat) (exs : list DatabaseExercise) (B : nat) (w : World),
    0 < B -> length exs <= fuel ->
    exists counts w' tr,
      Loader.insertExercisesInBatches fuel exs B w = (Ok counts, w') /\
      calls w' = calls w ++ tr /\
      forall j, j < length tr ->
                nth j (Trace.insert_batches tr) [] = firstn B (skipn (j * B) exs) /\
                0 < length (nth j (Trace.insert_batches tr) []) /\
                (S j < length tr ->
                 length (nth j (Trace.insert_batches tr) []) = B).
Proof.
  intros fuel exs B w HB Hfuel.
  destruct (insertExercisesInBatches_shape exs w HB Hfuel)
    as (tr & w' & Hrun & Htr & Hbatches & _).
  do 2 eexists. exists tr. split; [exact Hrun |].
  split; [exact (run_calls Htr) |].
  intros j Hj. rewrite (Hbatches j Hj). split; [reflexivity |].
  pose proof (run_count Htr) as Hcount. rewrite Nat.sub_0_r in Hcount.
  rewrite length_firstn, length_skipn. split.
  - rewrite Hcount in Hj. pose proof (ceil_div_last _ HB Hj). lia.
  - intros Hnext. rewrite Hcount in Hnext.
    pose proof (ceil_div_full _ HB Hnext). lia.
Qed.

Lemma insertExercisesInBatches_batch_contents_witness :
  exists counts w' tr,
    Loader.insertExercisesInBatches
      5 Sample.rows 2 (Sample.world [] None Sample.flaky)
    = (Ok counts, w') /\
    calls w' = calls (Sample.world [] None Sample.flaky) ++ tr /\
    forall j, j < length tr ->
              nth j (Trace.insert_batches tr) []
              = firstn 2 (skipn (j * 2) Sample.rows) /\
              0 < length (nth j (Trace.insert_batches tr) []) /\
              (S j < length tr ->
               length (nth j (Trace.insert_batches tr) []) = 2).
Proof.
  apply (@insertExercisesInBatches_batch_contents
           5 Sample.rows 2 (Sample.world [] None Sample.flaky));
    cbn; lia.
Defined.

(** X4.  Every row handed to the batch loop is counted once: the two counts
    it returns add up to the number of rows, whatever the store answers. *)
Theorem insertExercisesInBatches_counts_every_row :
  forall (fuel : nat) (exs : list DatabaseExercise) (B : nat) (w : World),
    0 < B -> length exs <= fuel ->
    exists insertedCount errorCount w',
      Loader.insertExercisesInBatches fuel exs B w
      = (Ok (insertedCount, errorCount), w') /\
      insertedCount + errorCount = length exs.
Proof.
  intros fuel exs B w HB Hfuel.
  destruct (insertExercisesInBatches_run exs w HB Hfuel) as (tr & w' & Hrun & Htr).
  do 3 eexists. split; [exact Hrun |].
  rewrite (rows_where_total _ (run_inserts Htr)), (run_rows Htr).
  reflexivity.
Qed.

Lemma insertExercisesInBatches_counts_every_row_witness :
  exists insertedCount errorCount w',
    Loader.insertExercisesInBatches
      5 Sample.rows 2 (Sample.world [] None Sample.flaky)
    = (Ok (insertedCount, errorCount), w') /\
    insertedCount + errorCount = length Sample.rows.
Proof.
  apply (@insertExercisesInBatches_counts_every_row
           5 Sample.rows 2 (Sample.world [] None Sample.flaky));
    cbn; lia.
Defined.

(** X5.  The batch loop prints its opening line and then one line per
    insert call, numbered from 1 in the order of the calls: on standard
    output with the batch's size when the call is answered without error, on
    standard error when it is answered with an error or throws. *)
Theorem insertExercisesInBatches_output :
  forall (fuel : nat) (exs : list DatabaseExercise) (B : nat) (w : World),
    0 < B -> length exs <= fuel ->
    exists counts w' tr,
      Loader.insertExercisesInBatches fuel exs B w = (Ok counts, w') /\
      calls w' = calls w ++ tr /\
      output_since w w'
      = (Stdout, InsertStart (length exs) B) :: batch_lines 1 tr.
Proof.
  intros fuel exs B w HB Hfuel.
  destruct (insertExercisesInBatches_shape exs w HB Hfuel)
    as (tr & w' & Hrun & Htr & _ & Hcon & _).
  do 2 eexists. exists tr. split; [exact Hrun |].
  split; [exact (run_calls Htr) |].
  unfold output_since. rewrite Hcon. apply since_app.
Qed.

Lemma insertExercisesInBatches_output_witness :
  exists counts w' tr,
    Loader.insertExercisesInBatches
      5 Sample.rows 2 (Sample.world [] None Sample.flaky)
    = (Ok counts, w') /\
    calls w' = calls (Sample.world [] None Sample.flaky) ++ tr /\
    output_since (Sample.world [] None Sample.flaky) w'
    = (Stdout, InsertStart (length Sample.rows) 2) :: batch_lines 1 tr.
Proof.
  apply (@insertExercisesInBatches_output
           5 Sample.rows 2 (Sample.world [] None Sample.flaky));
    cbn; lia.
Defined.

(** On the sample rows against the flaky store the lines are these. *)
Example batch_lines_on_sample :
  output_since
    (Sample.world [] None Sample.flaky)
    (snd (Loader.insertExercisesInBatches
            5 Sample.rows 2 (Sample.world [] None Sample.flaky)))
  = [(Stdout, InsertStart 5 2); (Stderr, BatchFailed 1 "duplicate key");
     (Stdout, BatchDone 2 2); (Stderr, BatchThrew 3 "fetch failed")].
Proof.
  reflexivity.
Qed.



(** X7.  With a batch size of zero and at least one row the loop never
    ends: whatever the fuel, the model does not return. *)
Theorem insertExercisesInBatches_zero_batch_size :
  forall (fuel : nat) (exs : list DatabaseExercise) (w : World),
    exs <> [] ->
    fst (Loader.insertExercisesInBatches fuel exs 0 w) = Diverge.
Proof.
  intros fuel exs w Hne. unfold Loader.insertExercisesInBatches, log.
  rewrite print_then. apply zero_batch_size_never_returns.
  destruct exs; [contradiction | cbn; lia].
Qed.

Lemma insertExercisesInBatches_zero_batch_size_witness :
  fst (Loader.insertExercisesInBatches 1000 Sample.rows 0 (Sample.world [] None []))
  = Diverge.
Proof.
  apply (@insertExercisesInBatches_zero_batch_size
           1000 Sample.rows (Sample.world [] None [])).
  discriminate.
Defined.

(** ** Runs of the loader *)

Section LoaderRuns.

Import Trace.

Lemma insert_batches_app :
  forall tr1 tr2,
    insert_batches (tr1 ++ tr2) = insert_batches tr1 ++ insert_batches tr2.
Proof.
  intros tr1 tr2. unfold insert_batches. now rewrite filter_app, map_app.
Qed.

End LoaderRuns.

(** X8.  With the configuration present, the probe answered and the
    identifier query answered with its rows, the loader submits exactly the
    transformed records whose identifier is not in the table, in the order
    of the file (a record the file holds twice is submitted twice), and
    ends with status 0; no submitted row has an identifier the table
    holds. *)
Theorem loader_submits_the_unknown_records :
  forall (env : Env) (w : World) (exs : list ExerciseData),
    config_missing env = false ->
    client_refusal env w = None ->
    failed (next_fault w) = false ->
    nth 1 (faults w) NoFault = NoFault ->
    exercises_json w = Some exs ->
    exit_status (fst (Loader.script env w)) = Some 0 /\
    concat (Trace.insert_batches (calls_since w (snd (Loader.script env w))))
    = filter (fun row => negb (Js.includes (stored_ids (table w)) (exercise_id row)))
             (map mapExerciseToDatabase exs) /\
    forall row,
      In row (concat (Trace.insert_batches
                        (calls_since w (snd (Loader.script env w))))) ->
      ~ In (exercise_id row) (stored_ids (table w)).
Proof.
  intros env w exs Hconfig Hclient Hprobe Hquery Hjson.
  rewrite loader_script_configured by assumption.
  pose proof (main_body_connected w Hprobe) as Hmain. cbv zeta in Hmain.
  rewrite Hjson, Hquery in Hmain. cbn [known_ids] in Hmain.
  destruct Hmain as (tr & w' & lines & Hrun & Hcalls & Hins & Hrows & _).
  rewrite (main_returned _ Hrun). cbn [fst snd exit_status].
  split; [reflexivity |].
  unfold calls_since. rewrite Hcalls, since_app, insert_batches_app.
  cbn [Trace.insert_batches filter Trace.is_insert fst map app].
  fold (Trace.insert_batches tr).
  rewrite (all_inserts_batches _ Hins), Hrows.
  split; [reflexivity |].
  intros row Hin Hknown. unfold Loader.new_exercises in Hin.
  apply filter_In in Hin as [_ Hnew]. apply includes_In in Hknown.
  rewrite Hknown in Hnew. discriminate.
Qed.

Lemma loader_submits_the_unknown_records_witness :
  exit_status
    (fst (Loader.script Sample.env (Sample.world Sample.half (Some Sample.file) [])))
  = Some 0 /\
  concat (Trace.insert_batches
            (calls_since
               (Sample.world Sample.half (Some Sample.file) [])
               (snd (Loader.script
                       Sample.env
                       (Sample.world Sample.half (Some Sample.file) [])))))
  = filter (fun row =>
              negb (Js.includes
                      (stored_ids (table (Sample.world Sample.half
                                                       (Some Sample.file) [])))
                      (exercise_id row)))
           (map mapExerciseToDatabase Sample.file) /\
  forall row,
    In row (concat (Trace.insert_batches
                      (calls_since
                         (Sample.world Sample.half (Some Sample.file) [])
                         (snd (Loader.script
                                 Sample.env
                                 (Sample.world Sample.half (Some Sample.file) [])))))) ->
    ~ In (exercise_id row)
         (stored_ids (table (Sample.world Sample.half (Some Sample.file) []))).
Proof.
  apply (@loader_submits_the_unknown_records
           Sample.env (Sample.world Sample.half (Some Sample.file) [])
           Sample.file);
    reflexivity.
Defined.

(** On the sample file against a table that holds its first two records,
    the loader submits the other three. *)
Example loader_on_half_filled_table :
  map (fun batch => map exercise_id batch)
      (Trace.insert_batches
         (calls (snd (Loader.script
                        Sample.env
                        (Sample.world Sample.half (Some Sample.file) [])))))
  = [["e3"; "e4"; "e5"]].
Proof.
  reflexivity.
Qed.

(** X9.  When the input file cannot be read or parsed, the loader has
    already sent the probe and the identifier query; it sends nothing more,
    leaves the table as it was, prints the error on standard error as its
    last line and ends with status 1. *)
Theorem loader_unreadable_file :
  forall (env : Env) (w : World),
    config_missing env = false ->
    client_refusal env w = None ->
    failed (next_fault w) = false ->
    exercises_json w = None ->
    exit_status (fst (Loader.script env w)) = Some 1 /\
    calls_since w (snd (Loader.script env w))
    = [(Select "count" [] (Some 1), next_fault w);
       (Select "exercise_id" [] None, nth 1 (faults w) NoFault)] /\
    table (snd (Loader.script env w)) = table w /\
    exists e lines,
      output_since w (snd (Loader.script env w)) = lines ++ [(Stderr, Critical e)].
Proof.
  intros env w Hconfig Hclient Hprobe Hjson.
  rewrite loader_script_configured by assumption.
  pose proof (main_body_connected w Hprobe) as Hmain. cbv zeta in Hmain.
  rewrite Hjson in Hmain. destruct Hmain as (e & w1 & Hrun & Hcalls & Htable).
  rewrite (main_caught _ Hrun). cbn [fst snd exit_status].
  split; [reflexivity |]. split; [| split; [exact Htable |]].
  - unfold calls_since. cbn [add_line calls]. rewrite Hcalls. apply since_app.
  - destruct (keeps_main_body w Hrun) as (_ & _ & lines & Hlines).
    exists e, lines. unfold output_since. cbn [add_line console].
    rewrite Hlines, <- app_assoc. apply since_app.
Qed.

Lemma loader_unreadable_file_witness :
  exit_status (fst (Loader.script Sample.env (Sample.world Sample.populated None [])))
  = Some 1 /\
  calls_since (Sample.world Sample.populated None [])
              (snd (Loader.script Sample.env (Sample.world Sample.populated None [])))
  = [(Select "count" [] (Some 1), next_fault (Sample.world Sample.populated None []));
     (Select "exercise_id" [] None,
      nth 1 (faults (Sample.world Sample.populated None [])) NoFault)] /\
  table (snd (Loader.script Sample.env (Sample.world Sample.populated None [])))
  = table (Sample.world Sample.populated None []) /\
  exists e lines,
    output_since (Sample.world Sample.populated None [])
                 (snd (Loader.script Sample.env
                                     (Sample.world Sample.populated None [])))
    = lines ++ [(Stderr, Critical e)].
Proof.
  apply (@loader_unreadable_file
           Sample.env (Sample.world Sample.populated None []));
    reflexivity.
Defined.

(** X10.  When the connectivity probe fails, the loader stops after that
    one call and leaves the table as it was; it ends with status 0 when the
    probe is answered with an error and with status 1 when the probe
    throws. *)
Theorem loader_failed_probe :
  forall (env : Env) (w : World),
    config_missing env = false ->
    client_refusal env w = None ->
    failed (next_fault w) = true ->
    calls_since w (snd (Loader.script env w))
    = [(Select "count" [] (Some 1), next_fault w)] /\
    table (snd (Loader.script env w)) = table w /\
    exit_status (fst (Loader.script env w))
    = Some (match next_fault w with
            | Thrown _ => 1
            | NoFault | NoData | StoreError _ => 0
            end).
Proof.
  intros env w Hconfig Hclient Hprobe.
  rewrite loader_script_configured by assumption.
  destruct (next_fault w) as [| | message | e] eqn:Hnext; try discriminate.
  - destruct (main_body_probe_error w Hnext) as (w' & Hrun & Hcalls & Htable & _).
    rewrite (main_returned _ Hrun). cbn [fst snd exit_status].
    unfold calls_since. rewrite Hcalls, since_app. auto.
  - destruct (main_body_probe_thrown w Hnext) as (w' & Hrun & Hcalls & Htable).
    rewrite (main_caught _ Hrun). cbn [fst snd exit_status].
    unfold calls_since. cbn [add_line calls]. rewrite Hcalls, since_app. auto.
Qed.

Lemma loader_failed_probe_witness :
  calls_since
    (Sample.world Sample.populated (Some Sample.file) [Thrown "fetch failed"])
    (snd (Loader.script
            Sample.env
            (Sample.world Sample.populated (Some Sample.file) [Thrown "fetch failed"])))
  = [(Select "count" [] (Some 1),
      next_fault (Sample.world Sample.populated (Some Sample.file)
                               [Thrown "fetch failed"]))] /\
  table (snd (Loader.script
                Sample.env
                (Sample.world Sample.populated (Some Sample.file)
                              [Thrown "fetch failed"])))
  = table (Sample.world Sample.populated (Some Sample.file) [Thrown "fetch failed"]) /\
  exit_status
    (fst (Loader.script
            Sample.env
            (Sample.world Sample.populated (Some Sample.file) [Thrown "fetch failed"])))
  = Some (match next_fault (Sample.world Sample.populated (Some Sample.file)
                                         [Thrown "fetch failed"]) with
          | Thrown _ => 1
          | NoFault | NoData | StoreError _ => 0
          end).
Proof.
  apply (@loader_failed_probe
           Sample.env
           (Sample.world Sample.populated (Some Sample.file) [Thrown "fetch failed"]));
    reflexivity.
Defined.

(** X11.  With the probe answered and the file readable, the loader's
    closing report accounts for every row it submitted: when it submitted
    none it prints the all-present notice, and otherwise the summary block,
    whose inserted and failed counts add up to the number of rows
    submitted. *)
Theorem loader_summary_accounts_for_submitted_rows :
  forall (env : Env) (w : World) (exs : list ExerciseData),
    config_missing env = false ->
    client_refusal env w = None ->
    failed (next_fault w) = false ->
    exercises_json w = Some exs ->
    (concat (Trace.insert_batches (calls_since w (snd (Loader.script env w)))) = [] ->
     In (Stdout, AllPresent) (output_since w (snd (Loader.script env w)))) /\
    (concat (Trace.insert_batches (calls_since w (snd (Loader.script env w)))) <> [] ->
     exists insertedCount errorCount,
       In (Stdout, SummaryInserted insertedCount)
          (output_since w (snd (Loader.script env w))) /\
       In (Stdout, SummaryFailed errorCount)
          (output_since w (snd (Loader.script env w))) /\
       insertedCount + errorCount
       = length (concat (Trace.insert_batches
                           (calls_since w (snd (Loader.script env w)))))).
Proof.
  intros env w exs Hconfig Hclient Hprobe Hjson.
  rewrite loader_script_configured by assumption.
  pose proof (main_body_connected w Hprobe) as Hmain. cbv zeta in Hmain.
  rewrite Hjson in Hmain.
  destruct Hmain
    as (tr & w' & lines & Hrun & Hcalls & Hins & Hrows & _ & Hcon & Hnone & Hsome & _).
  rewrite (main_returned _ Hrun). cbn [snd].
  unfold calls_since, output_since.
  rewrite Hcalls, Hcon, !since_app, insert_batches_app.
  cbn [Trace.insert_batches filter Trace.is_insert fst map app].
  fold (Trace.insert_batches tr).
  rewrite (all_inserts_batches _ Hins), Hrows. split.
  - intros Hnew. now apply Hnone.
  - intros Hnew. destruct (Hsome Hnew) as (_ & Hinserted & Hfailed).
    do 2 eexists. split; [exact Hinserted |]. split; [exact Hfailed |].
    rewrite (rows_where_total _ Hins), Hrows. reflexivity.
Qed.

Lemma loader_summary_accounts_for_submitted_rows_witness :
  (concat (Trace.insert_batches
             (calls_since
                (Sample.world Sample.half (Some Sample.file) [])
                (snd (Loader.script
                        Sample.env
                        (Sample.world Sample.half (Some Sample.file) []))))) = [] ->
   In (Stdout, AllPresent)
      (output_since
         (Sample.world Sample.half (Some Sample.file) [])
         (snd (Loader.script Sample.env
                             (Sample.world Sample.half (Some Sample.file) []))))) /\
  (concat (Trace.insert_batches
             (calls_since
                (Sample.world Sample.half (Some Sample.file) [])
                (snd (Loader.script
                        Sample.env
                        (Sample.world Sample.half (Some Sample.file) []))))) <> [] ->
   exists insertedCount errorCount,
     In (Stdout, SummaryInserted insertedCount)
        (output_since
           (Sample.world Sample.half (Some Sample.file) [])
           (snd (Loader.script Sample.env
                               (Sample.world Sample.half (Some Sample.file) [])))) /\
     In (Stdout, SummaryFailed errorCount)
        (output_since
           (Sample.world Sample.half (Some Sample.file) [])
           (snd (Loader.script Sample.env
                               (Sample.world Sample.half (Some Sample.file) [])))) /\
     insertedCount + errorCount
     = length (concat (Trace.insert_batches
                         (calls_since
                            (Sample.world Sample.half (Some Sample.file) [])
                            (snd (Loader.script
                                    Sample.env
                                    (Sample.world Sample.half (Some Sample.file) []))))))).
Proof.
  apply (@loader_summary_accounts_for_submitted_rows
           Sample.env (Sample.world Sample.half (Some Sample.file) []) Sample.file);
    reflexivity.
Defined.

(** ** More on the transformation and the configuration guard *)

Section Transformation.

Lemma append_length :
  forall a b : string,
    String.length (a ++ b) = String.length a + String.length b.
Proof.
  induction a as [| c a IH]; intros b; cbn; [reflexivity | now rewrite IH].
Qed.

Lemma append_cancel_right :
  forall a b s : string, (a ++ s = b ++ s)%string -> a = b.
Proof.
  induction a as [| c a IH]; intros [| d b] s H; cbn in H.
  - reflexivity.
  - apply (f_equal String.length) in H. cbn in H.
    rewrite append_length in H. lia.
  - apply (f_equal String.length) in H. cbn in H.
    rewrite append_length in H. lia.
  - injection H as -> H. f_equal. now apply (IH b s).
Qed.

End Transformation.

(** X12.  The image path determines the identifier: two records with the
    same image path in their rows have the same identifier, so records with
    different identifiers never share an image path. *)
Theorem gif_path_determines_identifier :
  forall e1 e2 : ExerciseData,
    gif_path (mapExerciseToDatabase e1) = gif_path (mapExerciseToDatabase e2) ->
    exerciseId e1 = exerciseId e2.
Proof.
  intros e1 e2 H. unfold mapExerciseToDatabase in H. cbn in H.
  injection H as H. now apply append_cancel_right in H.
Qed.

Lemma gif_path_determines_identifier_witness :
  exerciseId (Sample.exercise "e1" "Push Up")
  = exerciseId (Sample.exercise "e1" "Push Up (wide)").
Proof.
  apply (@gif_path_determines_identifier
           (Sample.exercise "e1" "Push Up") (Sample.exercise "e1" "Push Up (wide)")).
  reflexivity.
Defined.

(** X13.  The guard of both scripts takes an unset and an empty variable
    alike for missing.  The script then ends with status 1 before any call
    to the store, with the table untouched and nothing on standard
    output. *)
Theorem missing_configuration_stops_before_any_call :
  forall (env : Env) (w : World),
    VITE_SUPABASE_URL env = None \/ VITE_SUPABASE_URL env = Some EmptyString \/
    SUPABASE_SERVICE_ROLE_KEY env = None \/
    SUPABASE_SERVICE_ROLE_KEY env = Some EmptyString ->
    (fst (Loader.script env w) = Exit 1 /\
     calls (snd (Loader.script env w)) = calls w /\
     table (snd (Loader.script env w)) = table w /\
     Forall (fun l => fst l = Stderr) (output_since w (snd (Loader.script env w)))) /\
    (fst (Activator.script env w) = Exit 1 /\
     calls (snd (Activator.script env w)) = calls w /\
     table (snd (Activator.script env w)) = table w /\
     Forall (fun l => fst l = Stderr) (output_since w (snd (Activator.script env w)))).
Proof.
  intros env w Hmissing.
  assert (Hconfig : config_missing env = true).
  { unfold config_missing.
    destruct Hmissing as [-> | [-> | [-> | ->]]]; cbn;
      rewrite ?orb_true_r; reflexivity. }
  rewrite loader_script_unconfigured, activator_script_unconfigured by assumption.
  unfold output_since. cbn. rewrite <- ?app_assoc, !since_app.
  repeat split; repeat constructor.
Qed.

Lemma missing_configuration_stops_before_any_call_witness :
  (fst (Loader.script (mkEnv (Some EmptyString) (Some "service-role-key"))
                      Sample.unreachable) = Exit 1 /\
   calls (snd (Loader.script (mkEnv (Some EmptyString) (Some "service-role-key"))
                             Sample.unreachable))
   = calls Sample.unreachable /\
   table (snd (Loader.script (mkEnv (Some EmptyString) (Some "service-role-key"))
                             Sample.unreachable))
   = table Sample.unreachable /\
   Forall (fun l => fst l = Stderr)
          (output_since
             Sample.unreachable
             (snd (Loader.script (mkEnv (Some EmptyString) (Some "service-role-key"))
                                 Sample.unreachable)))) /\
  (fst (Activator.script (mkEnv (Some EmptyString) (Some "service-role-key"))
                         Sample.unreachable) = Exit 1 /\
   calls (snd (Activator.script (mkEnv (Some EmptyString) (Some "service-role-key"))
                                Sample.unreachable))
   = calls Sample.unreachable /\
   table (snd (Activator.script (mkEnv (Some EmptyString) (Some "service-role-key"))
                                Sample.unreachable))
   = table Sample.unreachable /\
   Forall (fun l => fst l = Stderr)
          (output_since
             Sample.unreachable
             (snd (Activator.script (mkEnv (Some EmptyString) (Some "service-role-key"))
                                    Sample.unreachable)))).
Proof.
  apply (@missing_configuration_stops_before_any_call
           (mkEnv (Some EmptyString) (Some "service-role-key")) Sample.unreachable).
  right. left. reflexivity.
Defined.

(** ** Runs of the activator *)

Section ActivatorRuns.

Import Trace.

Lemma update_activates_hit :
  forall (t : list Row) (k : nat),
    (exists r, In r t /\ id r = k /\ is_active (columns r) = false) ->
    length (inactive_rows (Sql.update true [EqId "id" k] t))
    < length (inactive_rows t).
Proof.
  intros t k (r & Hin & Hid & Hinactive). unfold inactive_rows, Sql.update.
  set (f := fun r1 : Row => negb (is_active (columns r1))).
  set (g := fun r1 : Row =>
              if Sql.selected [EqId "id" k] r1 then set_active true r1 else r1).
  induction t as [| r0 t IH]; [contradiction |].
  assert (Hle : length (filter f (map g t)) <= length (filter f t)).
  { apply (activated_only_inactive (activated_only_update [EqId "id" k] t)). }
  cbn [map filter]. destruct Hin as [-> | Hin].
  - assert (Hbefore : f r = true) by (subst f; cbn; now rewrite Hinactive).
    assert (Hafter : f (g r) = false).
    { subst f g. cbn. rewrite Hid, Nat.eqb_refl. reflexivity. }
    rewrite Hbefore, Hafter. cbn [length]. lia.
  - specialize (IH Hin).
    assert (Hhead : f (g r0) = true -> f r0 = true).
    { subst f g. cbv beta. destruct (Sql.selected [EqId "id" k] r0); cbn;
        [intros H; discriminate H | auto]. }
    destruct (f (g r0)); [rewrite Hhead by reflexivity |];
      [| destruct (f r0)]; cbn [length]; lia.
Qed.

Lemma update_leaves_no_inactive_hit :
  forall (t : list Row) (k : nat),
    Forall (fun r => id r = k -> is_active (columns r) = true)
           (Sql.update true [EqId "id" k] t).
Proof.
  intros t k. unfold Sql.update. apply Forall_forall. intros r' Hin.
  apply in_map_iff in Hin as (r & <- & _).
  unfold Sql.selected. cbn [forallb Sql.holds]. rewrite andb_true_r.
  destruct (Nat.eqb_spec (id r) k) as [Heq | Hne]; cbn; [reflexivity |].
  intros Hk. contradiction.
Qed.

Lemma matches_inactive :
  forall exerciseName t r,
    In r (Activator.matches exerciseName t) ->
    In r t /\ is_active (columns r) = false.
Proof.
  intros exerciseName t r Hin. unfold Activator.matches, Sql.select in Hin.
  cbn [Sql.limited] in Hin. apply filter_In in Hin as [Hin Hsel].
  split; [exact Hin |].
  unfold Sql.selected, Activator.search_filters in Hsel. cbn in Hsel.
  apply andb_prop in Hsel as [_ Hsel]. rewrite andb_true_r in Hsel.
  destruct (is_active (columns r)); [discriminate | reflexivity].
Qed.

End ActivatorRuns.

(** X14.  When the search for a name is answered with at least one hit and
    the update is answered without error, the round sends exactly two
    calls, the search and one update of [is_active] to true on the [id] of
    the first hit; afterwards no row of that [id] is inactive, the table
    has at least one inactive row less, and the activation is printed with
    the name and the identifier of the hit. *)
Theorem activation_takes_the_first_hit :
  forall (exerciseName : string) (w : World) (hit : Row) (others : list Row),
    Activator.matches exerciseName (table w) = hit :: others ->
    next_fault w = NoFault ->
    failed (nth 1 (faults w) NoFault) = false ->
    exists w',
      Activator.activate_one exerciseName w = (Ok tt, w') /\
      calls_since w w'
      = [(Select "id, name, exercise_id"
                 (Activator.search_filters exerciseName) None, NoFault);
         (Update true [EqId "id" (id hit)], nth 1 (faults w) NoFault)] /\
      table w' = Sql.update true [EqId "id" (id hit)] (table w) /\
      Forall (fun r => id r = id hit -> is_active (columns r) = true) (table w') /\
      length (inactive_rows (table w')) < length (inactive_rows (table w)) /\
      In (Stdout, Activated (db_name (columns hit)) (exercise_id (columns hit)))
         (output_since w w').
Proof.
  intros exerciseName [t json fs cs con sl ce] hit others Hhits Hnext Hupdate.
  cbn [table] in Hhits.
  assert (Hhit : In hit t /\ is_active (columns hit) = false).
  { apply (@matches_inactive exerciseName). rewrite Hhits. now left. }
  cbn in Hhits.
  unfold next_fault in Hnext. cbn in Hnext, Hupdate.
  destruct fs as [| f fs]; cbn in Hnext; [| subst f].
  - eexists. unfold Activator.activate_one, log, bind, Activator.search,
      Activator.activate, request, next_fault, print. cbn.
    rewrite Hhits. cbn. split; [reflexivity |].
    unfold calls_since, output_since. cbn. rewrite <- ?app_assoc, !since_app.
    split; [reflexivity |]. split; [reflexivity |].
    split; [apply update_leaves_no_inactive_hit |].
    split; [apply update_activates_hit; exists hit; tauto |].
    cbn. auto.
  - destruct fs as [| [| | message | e] fs]; cbn in Hupdate; try discriminate;
      unfold Activator.activate_one, log, bind, Activator.search,
        Activator.activate, request, next_fault, print; cbn;
      rewrite Hhits; cbn; eexists;
      (split; [reflexivity |]);
      unfold calls_since, output_since; cbn; rewrite <- ?app_assoc, !since_app;
      (split; [reflexivity |]); (split; [reflexivity |]);
      (split; [apply update_leaves_no_inactive_hit |]);
      (split; [apply update_activates_hit; exists hit; tauto |]);
      cbn; auto.
Qed.

Lemma activation_takes_the_first_hit_witness :
  exists w',
    Activator.activate_one "push up" (Sample.world Sample.populated None [])
    = (Ok tt, w') /\
    calls_since (Sample.world Sample.populated None []) w'
    = [(Select "id, name, exercise_id"
               (Activator.search_filters "push up") None, NoFault);
       (Update true
               [EqId "id" (id (mkRow 1 (mapExerciseToDatabase
                                          (Sample.exercise "e1" "Push Up"))))],
        nth 1 (faults (Sample.world Sample.populated None [])) NoFault)] /\
    table w'
    = Sql.update true
                 [EqId "id" (id (mkRow 1 (mapExerciseToDatabase
                                            (Sample.exercise "e1" "Push Up"))))]
                 (table (Sample.world Sample.populated None [])) /\
    Forall (fun r =>
              id r = id (mkRow 1 (mapExerciseToDatabase
                                    (Sample.exercise "e1" "Push Up"))) ->
              is_active (columns r) = true)
           (table w') /\
    length (inactive_rows (table w'))
    < length (inactive_rows (table (Sample.world Sample.populated None []))) /\
    In (Stdout,
        Activated
          (db_name (columns (mkRow 1 (mapExerciseToDatabase
                                        (Sample.exercise "e1" "Push Up")))))
          (exercise_id (columns (mkRow 1 (mapExerciseToDatabase
                                            (Sample.exercise "e1" "Push Up"))))))
       (output_since (Sample.world Sample.populated None []) w').
Proof.
  apply (@activation_takes_the_first_hit
           "push up" (Sample.world Sample.populated None [])
           (mkRow 1 (mapExerciseToDatabase (Sample.exercise "e1" "Push Up"))) []);
    reflexivity.
Defined.

(** X15.  When the update of a hit is answered with an error, the round
    has sent the search and that one update, the table is as it was, the
    failure is printed on standard error, and the loop goes on with the
    names that remain. *)
Theorem update_error_skips_name :
  forall (exerciseName : string) (rest : list string) (w : World)
         (hit : Row) (others : list Row) (e : string),
    Activator.matches exerciseName (table w) = hit :: others ->
    next_fault w = NoFault ->
    nth 1 (faults w) NoFault = StoreError e ->
    exists w',
      Activator.activate_one exerciseName w = (Ok tt, w') /\
      calls_since w w'
      = [(Select "id, name, exercise_id"
                 (Activator.search_filters exerciseName) None, NoFault);
         (Update true [EqId "id" (id hit)], StoreError e)] /\
      table w' = table w /\
      In (Stderr, ActivateFailed (db_name (columns hit)) e) (output_since w w') /\
      Activator.for_each (exerciseName :: rest) Activator.activate_one w
      = Activator.for_each rest Activator.activate_one w'.
Proof.
  intros exerciseName rest [t json fs cs con sl ce] hit others e Hhits Hnext Hupdate.
  cbn in Hhits. unfold next_fault in Hnext. cbn in Hnext, Hupdate.
  destruct fs as [| f [| f2 fs]]; cbn in Hnext, Hupdate; try discriminate.
  subst f f2.
  cbn [Activator.for_each].
  unfold Activator.activate_one, log, log_error, bind, Activator.search,
    Activator.activate, request, next_fault, print. cbn.
  rewrite Hhits. cbn. eexists. split; [reflexivity |].
  unfold calls_since, output_since. cbn. rewrite <- ?app_assoc, !since_app.
  repeat split. cbn. auto.
Qed.

Lemma update_error_skips_name_witness :
  exists w',
    Activator.activate_one
      "push up" (Sample.world Sample.populated None [NoFault; StoreError "timeout"])
    = (Ok tt, w') /\
    calls_since (Sample.world Sample.populated None [NoFault; StoreError "timeout"]) w'
    = [(Select "id, name, exercise_id"
               (Activator.search_filters "push up") None, NoFault);
       (Update true
               [EqId "id" (id (mkRow 1 (mapExerciseToDatabase
                                          (Sample.exercise "e1" "Push Up"))))],
        StoreError "timeout")] /\
    table w'
    = table (Sample.world Sample.populated None [NoFault; StoreError "timeout"]) /\
    In (Stderr,
        ActivateFailed
          (db_name (columns (mkRow 1 (mapExerciseToDatabase
                                        (Sample.exercise "e1" "Push Up")))))
          "timeout")
       (output_since
          (Sample.world Sample.populated None [NoFault; StoreError "timeout"]) w') /\
    Activator.for_each ("push up" :: ["plank"]) Activator.activate_one
                       (Sample.world Sample.populated None
                                     [NoFault; StoreError "timeout"])
    = Activator.for_each ["plank"] Activator.activate_one w'.
Proof.
  apply (@update_error_skips_name
           "push up" ["plank"]
           (Sample.world Sample.populated None [NoFault; StoreError "timeout"])
           (mkRow 1 (mapExerciseToDatabase (Sample.exercise "e1" "Push Up"))) []
           "timeout");
    reflexivity.
Defined.

(** ** The activator's trace *)

Section ActivatorTrace.

Import Trace.

Lemma activate_one_trace :
  forall exerciseName w,
  exists r w' f rest,
    Activator.activate_one exerciseName w = (r, w') /\
    calls w' = calls w ++ (search_call exerciseName, f) :: rest /\
    filter is_search rest = [] /\
    length rest <= 1 /\
    (r = Ok tt \/
     exists e tr0 c,
       r = Throw e /\
       (search_call exerciseName, f) :: rest = tr0 ++ [(c, Thrown e)]).
Proof.
  intros exerciseName [t json fs cs con sl ce].
  unfold Activator.activate_one, log, log_error. rewrite print_then.
  unfold bind, Activator.search, Activator.activate, request, next_fault,
    search_call.
  cbn.
  destruct fs as [| [| | message | e] fs]; cbn;
    try destruct (filter (Sql.selected (Activator.search_filters exerciseName)) t)
      as [| hit hits]; cbn;
    try (destruct fs as [| [| | message' | e'] fs]; cbn);
    do 4 eexists; (split; [reflexivity |]); cbn;
    rewrite <- ?app_assoc;
    (split; [reflexivity |]); (split; [reflexivity |]);
    (split; [cbn; lia |]);
    first [ left; reflexivity
          | right; do 3 eexists; split; [reflexivity |];
            first [ exact (eq_refl : [_] = [] ++ [_])
                  | exact (eq_refl : [_; _] = [_] ++ [_]) ] ].
Qed.

Lemma firstn_succ_cons :
  forall (A : Type) (k : nat) (x : A) (xs : list A),
    firstn (S k) (x :: xs) = x :: firstn k xs.
Proof.
  reflexivity.
Qed.

Lemma for_each_trace :
  forall names w,
  exists r w' tr k,
    Activator.for_each names Activator.activate_one w = (r, w') /\
    calls w' = calls w ++ tr /\
    map fst (filter is_search tr) = map search_call (firstn k names) /\
    length tr <= 2 * k /\
    k <= length names /\
    ((r = Ok tt /\ k = length names) \/
     exists e tr0 c, r = Throw e /\ tr = tr0 ++ [(c, Thrown e)]).
Proof.
  induction names as [| exerciseName rest IH]; intros w.
  - exists (Ok tt), w, [], 0. cbn. rewrite app_nil_r. repeat split; auto.
  - cbn [Activator.for_each].
    destruct (activate_one_trace exerciseName w)
      as (r & w1 & f & more & Hrun & Hcalls & Hmore & Hlen & Hr).
    destruct Hr as [-> | (e & tr0 & c & -> & Hlast)].
    + rewrite (@bind_ok _ _ _ _ _ _ _ Hrun).
      destruct (IH w1) as (r' & w' & tr & k & Hrest & Hcalls' & Hsearch & Hlen' & Hk & Hr').
      exists r', w', (((search_call exerciseName, f) :: more) ++ tr), (S k).
      split; [exact Hrest |]. split; [| split; [| split; [| split]]].
      * rewrite Hcalls', Hcalls, <- app_assoc. reflexivity.
      * rewrite filter_app. cbn [filter is_search search_call fst
                                 Activator.search_filters].
        rewrite Hmore. cbn [app map firstn]. now rewrite Hsearch.
      * rewrite length_app. cbn [length]. lia.
      * cbn [length]. lia.
      * destruct Hr' as [[-> ->] | (e & tr0 & c & -> & ->)].
        -- left. split; reflexivity.
        -- right. exists e, (((search_call exerciseName, f) :: more) ++ tr0), c.
           split; [reflexivity |]. now rewrite <- app_assoc.
    + rewrite (@bind_throw _ _ _ _ _ _ _ Hrun).
      exists (Throw e), w1, ((search_call exerciseName, f) :: more), 1.
      split; [reflexivity |]. split; [exact Hcalls |].
      split; [| split; [| split]].
      * cbn [filter is_search search_call fst Activator.search_filters].
        rewrite Hmore. reflexivity.
      * cbn [length]. lia.
      * cbn [length]. lia.
      * right. exists e, tr0, c. split; [reflexivity | exact Hlast].
Qed.

Lemma select_active :
  forall t, filter (Sql.selected [EqBool "is_active" true]) t = active_rows t.
Proof.
  intros t. unfold active_rows.
  apply filter_ext. intros r. unfold Sql.selected. cbn.
  destruct (is_active (columns r)); reflexivity.
Qed.

(** The ways the [try] block of [activateBasicExercises] ends. *)
Lemma activate_body_trace :
  forall w,
  exists r w' tr,
    Activator.activate_body w = (r, w') /\
    calls w' = calls w ++ tr /\
    ((exists e tr0 c, r = Throw e /\ tr = tr0 ++ [(c, Thrown e)]) \/
     (exists tr0 f lines,
         r = Ok tt /\
         tr = tr0 ++ [(count_call, f)] /\
         map fst (filter is_search tr0) = map search_call Activator.BASIC_EXERCISES /\
         length tr0 <= 2 * length Activator.BASIC_EXERCISES /\
         console w'
         = console w ++ lines
           ++ [(Stdout, Finished (reported_count f (table w'))); (Stdout, TestNow)])).
Proof.
  intros w. unfold Activator.activate_body, log. rewrite print_then.
  set (wa := add_line Stdout ActivateStart w).
  destruct (for_each_trace Activator.BASIC_EXERCISES wa)
    as (r & w1 & tr & k & Hrun & Hcalls & Hsearch & Hlen & Hk & Hr).
  destruct (keeps_for_each Activator.BASIC_EXERCISES wa Hrun)
    as (_ & _ & (lines1 & Hlines1) & _).
  destruct Hr as [[-> ->] | (e & tr0 & c & -> & ->)].
  - rewrite (@bind_ok _ _ _ _ _ _ _ Hrun). rewrite firstn_all in Hsearch.
    unfold bind, Activator.count_active, request.
    fold count_call.
    destruct (next_fault w1) as [| | message | e] eqn:Hnext; cbn;
      rewrite ?select_active;
      do 3 eexists; (split; [reflexivity |]); cbn;
      (split; [rewrite Hcalls; subst wa; cbn; rewrite <- app_assoc; reflexivity |]).
    + right. exists tr, NoFault, ((Stdout, ActivateStart) :: lines1).
      split; [reflexivity |]. split; [reflexivity |]. split; [exact Hsearch |].
      split; [exact Hlen |].
      rewrite Hlines1. subst wa. cbn. rewrite <- !app_assoc. reflexivity.
    + right. exists tr, NoData, ((Stdout, ActivateStart) :: lines1).
      split; [reflexivity |]. split; [reflexivity |]. split; [exact Hsearch |].
      split; [exact Hlen |].
      rewrite Hlines1. subst wa. cbn. rewrite <- !app_assoc. reflexivity.
    + right. exists tr, (StoreError message), ((Stdout, ActivateStart) :: lines1).
      split; [reflexivity |]. split; [reflexivity |]. split; [exact Hsearch |].
      split; [exact Hlen |].
      rewrite Hlines1. subst wa. cbn. rewrite <- !app_assoc. reflexivity.
    + left. exists e, tr, count_call. split; reflexivity.
  - rewrite (@bind_throw _ _ _ _ _ _ _ Hrun).
    exists (Throw e), w1, (tr0 ++ [(c, Thrown e)]).
    split; [reflexivity |]. split; [exact Hcalls |].
    left. exists e, tr0, c. split; reflexivity.
Qed.

End ActivatorTrace.

Lemma activate_body_returns :
  forall w,
    Forall (fun f => forall e, f <> Thrown e) (faults w) ->
    exists w' tr0 f lines,
      Activator.activate_body w = (Ok tt, w') /\
      calls w' = calls w ++ tr0 ++ [(count_call, f)] /\
      map fst (filter is_search tr0) = map search_call Activator.BASIC_EXERCISES /\
      length tr0 <= 2 * length Activator.BASIC_EXERCISES /\
      console w'
      = console w ++ lines
        ++ [(Stdout, Finished (reported_count f (table w'))); (Stdout, TestNow)].
Proof.
  intros w Hquiet.
  destruct (activate_body_trace w) as (r & w' & tr & Hrun & Hcalls & Hr).
  destruct Hr as [(e & tr0 & c & -> & ->) | (tr0 & f & lines & -> & -> & Hrest)].
  - exfalso.
    destruct (keeps_activate_body w Hrun) as (_ & (tr & Hcalls' & _ & Hanswers) & _).
    rewrite Hcalls in Hcalls'. apply app_inv_head in Hcalls'. subst tr.
    apply Forall_app in Hanswers as [_ Hlast].
    inversion Hlast as [| entry rest [Hentry | Hentry] _]; subst.
    + discriminate Hentry.
    + cbn in Hentry. rewrite Forall_forall in Hquiet.
      now apply (Hquiet _ Hentry e).
  - exists w', tr0, f, lines. tauto.
Qed.

(** X16.  When a call of the activator throws, that call is the last one
    it sends: the names that remain are not searched and the closing count
    is not asked for.  The handler prints the error on standard error and
    the process ends with status 0. *)
Theorem activator_stops_at_thrown_call :
  forall (env : Env) (w w1 : World) (e : string),
    config_missing env = false ->
    client_refusal env w = None ->
    Activator.activate_body w = (Throw e, w1) ->
    Activator.script env w = (Ok tt, add_line Stderr (Critical e) w1) /\
    exit_status (fst (Activator.script env w)) = Some 0 /\
    exists tr0 c,
      calls_since w (snd (Activator.script env w)) = tr0 ++ [(c, Thrown e)].
Proof.
  intros env w w1 e Hconfig Hclient Hbody.
  rewrite activator_script_configured by assumption.
  unfold Activator.activateBasicExercises, try_catch. rewrite Hbody.
  cbn [fst snd exit_status]. split; [reflexivity |]. split; [reflexivity |].
  destruct (activate_body_trace w) as (r & w' & tr & Hrun & Hcalls & Hr).
  rewrite Hbody in Hrun. injection Hrun as Hr' Hw'. subst r w'.
  destruct Hr as [(e' & tr0 & c & He & ->) | (tr0 & f & lines & Hr & _)];
    [| discriminate Hr].
  injection He as ->. exists tr0, c.
  unfold calls_since, log_error, print. cbn [snd add_line calls].
  rewrite Hcalls. apply since_app.
Qed.

Lemma activator_stops_at_thrown_call_witness :
  Activator.script Sample.env
                   (Sample.world Sample.populated None [NoFault; NoFault; Thrown "fetch failed"])
  = (Ok tt,
     add_line Stderr (Critical "fetch failed")
              (snd (Activator.activate_body
                      (Sample.world Sample.populated None
                                    [NoFault; NoFault; Thrown "fetch failed"])))) /\
  exit_status
    (fst (Activator.script
            Sample.env
            (Sample.world Sample.populated None
                          [NoFault; NoFault; Thrown "fetch failed"])))
  = Some 0 /\
  exists tr0 c,
    calls_since
      (Sample.world Sample.populated None [NoFault; NoFault; Thrown "fetch failed"])
      (snd (Activator.script
              Sample.env
              (Sample.world Sample.populated None
                            [NoFault; NoFault; Thrown "fetch failed"])))
    = tr0 ++ [(c, Thrown "fetch failed")].
Proof.
  apply (@activator_stops_at_thrown_call
           Sample.env
           (Sample.world Sample.populated None
                         [NoFault; NoFault; Thrown "fetch failed"])
           (snd (Activator.activate_body
                   (Sample.world Sample.populated None
                                 [NoFault; NoFault; Thrown "fetch failed"])))
           "fetch failed");
    reflexivity.
Defined.



(** X18.  As long as no call throws, the activator's last two lines are the
    closing line and the invitation to test.  The number on the closing
    line is the number of active rows of the table when the count query is
    answered with data, and 0 when it is answered with an error or without
    data, however many rows are active: the error of that query is not
    looked at. *)
Theorem activator_closing_line :
  forall (env : Env) (w : World),
    config_missing env = false ->
    client_refusal env w = None ->
    Forall (fun f => forall e, f <> Thrown e) (faults w) ->
    exists tr0 f lines,
      calls_since w (snd (Activator.script env w)) = tr0 ++ [(count_call, f)] /\
      output_since w (snd (Activator.script env w))
      = lines
        ++ [(Stdout,
             Finished (reported_count f (table (snd (Activator.script env w)))));
            (Stdout, TestNow)].
Proof.
  intros env w Hconfig Hclient Hquiet.
  rewrite activator_script_configured by assumption.
  destruct (activate_body_returns w Hquiet)
    as (w' & tr0 & f & lines & Hrun & Hcalls & _ & _ & Hcon).
  unfold Activator.activateBasicExercises, try_catch. rewrite Hrun.
  cbn [snd]. exists tr0, f, lines. split.
  - unfold calls_since. rewrite Hcalls. apply since_app.
  - unfold output_since. rewrite Hcon. apply since_app.
Qed.

Lemma activator_closing_line_witness :
  exists tr0 f lines,
    calls_since
      (Sample.world Sample.populated None [])
      (snd (Activator.script Sample.env (Sample.world Sample.populated None [])))
    = tr0 ++ [(count_call, f)] /\
    output_since
      (Sample.world Sample.populated None [])
      (snd (Activator.script Sample.env (Sample.world Sample.populated None [])))
    = lines
      ++ [(Stdout,
           Finished
             (reported_count
                f
                (table (snd (Activator.script
                               Sample.env
                               (Sample.world Sample.populated None []))))));
          (Stdout, TestNow)].
Proof.
  apply (@activator_closing_line
           Sample.env (Sample.world Sample.populated None [])).
  - reflexivity.
  - reflexivity.
  - constructor.
Defined.

(** On the sample table the activator activates the push up, the squat, the
    plank, the pull up and the crunch and reports five active rows; when its
    count query is answered with an error it reports none. *)
Example activator_on_sample :
  map (fun r => is_active (columns r))
      (table (snd (Activator.script
                     Sample.env (Sample.world Sample.populated None []))))
  = [true; true; true; true; true] /\
  last (console (snd (Activator.script
                        Sample.env (Sample.world Sample.populated None []))))
       (Stdout, TestNow)
  = (Stdout, TestNow) /\
  In (Stdout, Finished 5)
     (console (snd (Activator.script
                      Sample.env (Sample.world Sample.populated None [])))) /\
  In (Stdout, Finished 0)
     (console (snd (Activator.script
                      Sample.env
                      (Sample.world Sample.populated None
                                    (repeat NoFault 28 ++ [StoreError "timeout"]))))).
Proof.
  split; [vm_compute; reflexivity |].
  split; [vm_compute; reflexivity |].
  split; vm_compute; repeat (first [left; reflexivity | right]).
Qed.
